(** * reserve-data: rebroadcaster, bolt intermediate-tx store, postgres store

    A shallow embedding of three parts of the reserve-data backend:
    - [Blockchain]: [Rebroadcaster.Broadcast] (common/blockchain);
    - [Bolt]: the bolt-backed huobi storage (intermediate transactions and
      trade history);
    - [Postgres]: the postgres-backed fetch-data and activity storage.

    Go maps are [gmap]s, [[]byte] values and keys are [string]s, [uint64]
    values are [Z] with the wrap-around of the subtraction written out, and
    a Go [error] result is an [option]: [None] is [nil].  A table is the
    list of its rows; a query without [ORDER BY] that reads several rows
    takes the order in which the database yields them as an argument. *)

From Stdlib Require Import ZArith Lia Bool Ascii String List.
From stdpp Require Import base option gmap strings list fin_maps pretty sorting.

Local Open Scope Z_scope.

(** ** common/blockchain: Rebroadcaster *)

Module Blockchain.

(** What the code does, in program order.  [context.WithTimeout] carries the
    deadline in milliseconds; [SendCall]/[SendReturn] bracket
    [client.SendTransaction]. *)
Inductive event : Type :=
  | WgAdd
  | CtxWithTimeout (id : string) (ms : Z)
  | SendCall (id : string)
  | SendReturn (id : string)
  | FailuresStore (id : string)
  | WgDone
  | WgWait
  | FailuresRange
  | Cancel (id : string).

(** Submissions that have been called and have not returned yet: [level] is
    their number at the end of a trace that starts with [n] of them, [peak]
    the greatest number reached on the way. *)
Fixpoint level (n : nat) (tr : list event) : nat :=
  match tr with
  | [] => n
  | SendCall _ :: tr' => level (S n) tr'
  | SendReturn _ :: tr' => level (pred n) tr'
  | _ :: tr' => level n tr'
  end.

Fixpoint peak (n : nat) (tr : list event) : nat :=
  match tr with
  | [] => n
  | SendCall _ :: tr' => Nat.max n (peak (S n) tr')
  | SendReturn _ :: tr' => Nat.max n (peak (pred n) tr')
  | _ :: tr' => peak n tr'
  end.

Definition max_in_flight (tr : list event) : nat := peak 0 tr.

(** The calls and returns of [SendTransaction] in a trace. *)
Fixpoint sends (tr : list event) : list event :=
  match tr with
  | [] => []
  | SendCall id :: tr' => SendCall id :: sends tr'
  | SendReturn id :: tr' => SendReturn id :: sends tr'
  | _ :: tr' => sends tr'
  end.

(** How often [SendTransaction] is called for a node in a trace. *)
Fixpoint calls (id : string) (tr : list event) : nat :=
  match tr with
  | [] => 0
  | SendCall id' :: tr' =>
      if String.eqb id id' then S (calls id tr') else calls id tr'
  | _ :: tr' => calls id tr'
  end.

Section Rebroadcaster.

Variables Client Tx Err : Type.

(** [client.SendTransaction(ctx, tx)]: [None] for [nil], [Some err] for an
    error, the context's deadline error included. *)
Variable SendTransaction : Client -> Tx -> option Err.

(** The locals of [Broadcast] that the loop touches: the [sync.Map], the
    [sync.WaitGroup] counter, the deferred calls (last in, first out) and
    the trace so far. *)
Record frame : Type := Frame {
  failures : gmap string Err;
  wg : nat;
  deferred : list event;
  trace : list event
}.

Definition emit (e : event) (s : frame) : frame :=
  Frame (failures s) (wg s) (deferred s) (trace s ++ [e]).

Definition wg_Add (s : frame) : frame :=
  emit WgAdd (Frame (failures s) (S (wg s)) (deferred s) (trace s)).

Definition wg_Done (s : frame) : frame :=
  emit WgDone (Frame (failures s) (pred (wg s)) (deferred s) (trace s)).

Definition failures_Store (id : string) (err : Err) (s : frame) : frame :=
  emit (FailuresStore id)
       (Frame (<[id := err]> (failures s)) (wg s) (deferred s) (trace s)).

Definition defer (e : event) (s : frame) : frame :=
  Frame (failures s) (wg s) (e :: deferred s) (trace s).

(** [Rebroadcaster.broadcast]: the call to [SendTransaction] returns before
    anything else happens; [wg.Done] is deferred to the end of the body. *)
Definition broadcast (id : string) (client : Client) (tx : Tx)
    (s : frame) : frame :=
  let s := emit (SendCall id) s in
  let err := SendTransaction client tx in
  let s := emit (SendReturn id) s in
  let s := match err with
           | Some e => failures_Store id e s
           | None => s
           end in
  wg_Done s.

(** One iteration of the [for id, client := range self.clients] loop.
    [broadcast] is an ordinary call: the loop goes on when it has
    returned. *)
Definition loop_body (tx : Tx) (s : frame) (kv : string * Client) : frame :=
  let s := wg_Add s in
  let s := emit (CtxWithTimeout kv.1 3000) s in
  let s := broadcast kv.1 kv.2 tx s in
  defer (Cancel kv.1) s.

Definition frame0 : frame := Frame ∅ 0 [] [].

(** [failures.Range] copying the [sync.Map] into the result map. *)
Definition failures_Range (f : gmap string Err) : gmap string Err :=
  map_fold (fun k v (r : gmap string Err) => <[k := v]> r) ∅ f.

(** The frame when [Broadcast] reaches [wg.Wait()], for a range over the
    Go map that visits its entries in the given order. *)
Definition Broadcast_loop_in (order : list (string * Client)) (tx : Tx) : frame :=
  foldl (loop_body tx) frame0 order.

(** Go leaves the order of a range over a map open; here it is the order
    of [map_to_list].  Nothing below depends on it. *)
Definition Broadcast_loop (clients : gmap string Client) (tx : Tx) : frame :=
  Broadcast_loop_in (map_to_list clients) tx.

(** The events of a whole call, the deferred [cancel]s at the return. *)
Definition Broadcast_trace (clients : gmap string Client) (tx : Tx)
    : list event :=
  let s := Broadcast_loop clients tx in
  trace s ++ [WgWait; FailuresRange] ++ deferred s.

(** [Rebroadcaster.Broadcast].  [wg.Wait()] returns when the counter is
    zero; no other goroutine exists that could lower it, so with a
    non-zero counter the call never returns ([None]). *)
Definition Broadcast (clients : gmap string Client) (tx : Tx)
    : option (gmap string Err * bool) :=
  let s := Broadcast_loop clients tx in
  match wg s with
  | O =>
      let result := failures_Range (failures s) in
      Some (result,
            negb (size result =? size clients)%nat
            && (0 <? size clients)%nat)
  | S _ => None
  end.

(** What one iteration appends to the trace, and what it does to the
    [sync.Map]. *)
Definition block (tx : Tx) (kv : string * Client) : list event :=
  [WgAdd; CtxWithTimeout kv.1 3000; SendCall kv.1; SendReturn kv.1]
  ++ match SendTransaction kv.2 tx with
     | Some _ => [FailuresStore kv.1]
     | None => []
     end
  ++ [WgDone].

Definition store_failure (tx : Tx) (f : gmap string Err)
    (kv : string * Client) : gmap string Err :=
  match SendTransaction kv.2 tx with
  | Some e => <[kv.1 := e]> f
  | None => f
  end.

(** The sentence of the specification about the returned boolean. *)
Definition partialSuccess_spec (clients : gmap string Client) (tx : Tx)
    (partialSuccess : bool) : Prop :=
  partialSuccess = true <->
  (exists id c, clients !! id = Some c /\ SendTransaction c tx = None) /\
  (exists id c e, clients !! id = Some c /\ SendTransaction c tx = Some e) /\
  clients <> ∅.

End Rebroadcaster.

Arguments Frame {Err}.
Arguments failures {Err}.
Arguments wg {Err}.
Arguments deferred {Err}.
Arguments trace {Err}.
Arguments emit {Err}.
Arguments wg_Add {Err}.
Arguments wg_Done {Err}.
Arguments failures_Store {Err}.
Arguments defer {Err}.
Arguments frame0 {Err}.
Arguments failures_Range {Err}.
Arguments broadcast {Client Tx Err}.
Arguments loop_body {Client Tx Err}.
Arguments Broadcast_loop_in {Client Tx Err}.
Arguments Broadcast_loop {Client Tx Err}.
Arguments Broadcast_trace {Client Tx Err}.
Arguments Broadcast {Client Tx Err}.
Arguments partialSuccess_spec {Client Tx Err}.
Arguments block {Client Tx Err}.
Arguments store_failure {Client Tx Err}.

(** A three-node set for the examples: a client is [true] when the node
    accepts the transaction and [false] when it rejects it. *)
Definition send_bool (c : bool) (_ : unit) : option string :=
  if c then None else Some "rejected"%string.

Definition nodes (a b c : bool) : gmap string bool :=
  <["A"%string := a]> (<["B"%string := b]> (<["C"%string := c]> ∅)).

End Blockchain.

(** ** common: identifiers and unsigned arithmetic *)

Module Common.

(** [common.ActivityID], as the storage code reads it ([id.Timepoint],
    [id.EID]). *)
Record ActivityID : Type := MkActivityID {
  Timepoint : Z;
  EID : string
}.

#[export] Instance ActivityID_eq_dec : EqDecision ActivityID.
Proof. solve_decision. Defined.

#[export] Instance ActivityID_countable : Countable ActivityID.
Proof.
  apply (inj_countable' (fun id => (Timepoint id, EID id))
                        (fun p => MkActivityID p.1 p.2)).
  intros []. reflexivity.
Defined.

Definition is_uint64 (z : Z) : Prop := 0 <= z < 2 ^ 64.

(** [a - b] on [uint64]. *)
Definition sub64 (a b : Z) : Z := (a - b) mod 2 ^ 64.

(** [strconv.FormatUint(n, 10)]. *)
Definition FormatUint (n : Z) : string := pretty (Z.to_N n).

(** [bytes.Compare(a, b) <= 0]. *)
Definition bytes_le (a b : string) : bool :=
  match String.compare a b with
  | Gt => false
  | _ => true
  end.

End Common.

(** ** exchange/huobi/storage: the bolt storage *)

Module Bolt.

Import Common.

Definition maxGetTradeHistory : Z := 3 * 86400000.

(** bolt's limits on keys and values ([MaxKeySize], [MaxValueSize]). *)
Definition MaxKeySize : Z := 32768.
Definition MaxValueSize : Z := 2 ^ 31 - 2.

Inductive error : Type :=
  | ErrJSON               (* an error of encoding/json *)
  | ErrKeyRequired
  | ErrKeyTooLarge
  | ErrValueTooLarge
  | ErrNoSecondTx         (* "can not find 2nd transaction tx for the deposit, please try later" *)
  | ErrRangeTooBroad.     (* "time range is too broad, it must be smaller or equal to 3 days (miliseconds)" *)

(** An entry of the [trade_history] bucket: a plain value, or a nested
    bucket (for which a cursor yields a nil value) with its entries in key
    order. *)
Inductive entry : Type :=
  | Value (v : string)
  | SubBucket (kvs : list (string * string)).

(** The three buckets made by [NewBoltStorage], and the number of read
    transactions started so far (bolt's [Stats().TxN]). *)
Record DB : Type := MkDB {
  intermediate_tx : gmap string string;
  pending_intermediate_tx : gmap string string;
  trade_history : list (string * entry);
  TxN : nat
}.

Definition db0 : DB := MkDB ∅ ∅ [] 0.

Definition set_intermediate_tx (b : gmap string string) (db : DB) : DB :=
  MkDB b (pending_intermediate_tx db) (trade_history db) (TxN db).

Definition set_pending_intermediate_tx (b : gmap string string) (db : DB) : DB :=
  MkDB (intermediate_tx db) b (trade_history db) (TxN db).

(** [Bucket.Put] on a bucket without nested buckets, in a writable
    transaction. *)
Definition Put (key value : string) (b : gmap string string)
    : error + gmap string string :=
  if (String.length key =? 0)%nat then inl ErrKeyRequired
  else if MaxKeySize <? Z.of_nat (String.length key) then inl ErrKeyTooLarge
  else if MaxValueSize <? Z.of_nat (String.length value) then inl ErrValueTooLarge
  else inr (<[key := value]> b).

(** [Bucket.Delete] on such a bucket: removing an absent key is no error. *)
Definition Delete (key : string) (b : gmap string string)
    : error + gmap string string :=
  inr (delete key b).

(** [db.Update(fn)]: the writes of [fn] are committed when it returns nil
    and rolled back when it returns an error, which [Update] returns. *)
Definition Update (fn : DB -> option error * DB) (db : DB) : option error * DB :=
  match fn db with
  | (None, db') => (None, db')
  | (Some e, _) => (Some e, db)
  end.

(** [db.View(fn)]: a read transaction. *)
Definition View {A} (fn : DB -> A) (db : DB) : A * DB :=
  (fn db,
   MkDB (intermediate_tx db) (pending_intermediate_tx db) (trade_history db)
        (S (TxN db))).

(** [cursor.Seek(min)] on entries in key order: the first entry whose key
    is not below [min], and those after it. *)
Fixpoint Seek (min : string) (kvs : list (string * string))
    : list (string * string) :=
  match kvs with
  | [] => []
  | (k, v) :: rest => if bytes_le min k then kvs else Seek min rest
  end.

Section Storage.

(** [common.TXEntry] and [common.TradeHistory] with their JSON codecs,
    the JSON encoding of an id, [ActivityID.ToBytes] and
    [boltutil.BytesToUint64]; an encoder answers [None] when
    [json.Marshal] returns an error. *)
Variables TXEntry TradeHistory : Type.
Variable marshalTX : TXEntry -> option string.
Variable marshalID : ActivityID -> option string.
Variable ToBytes : ActivityID -> string.
Variable unmarshalTrade : string -> option TradeHistory.
Variable BytesToUint64 : string -> Z.

(** [StorePendingIntermediateTx].  The outer [err] is still nil when the
    closure returns it after a failed [json.Marshal(data)]. *)
Definition StorePendingIntermediateTx (id : ActivityID) (data : TXEntry)
    (db : DB) : option error * DB :=
  let err : option error := None in
  Update (fun tx =>
    match marshalTX data with
    | None => (err, tx)
    | Some dataJSON =>
        match marshalID id with
        | None => (Some ErrJSON, tx)
        | Some idJSON =>
            match Put idJSON dataJSON (pending_intermediate_tx tx) with
            | inl e => (Some e, tx)
            | inr b => (None, set_pending_intermediate_tx b tx)
            end
        end
    end) db.

(** [StoreIntermediateTx]: put under [id.ToBytes()] in [intermediate_tx],
    then delete the JSON key from [pending_intermediate_tx], in one
    update transaction. *)
Definition StoreIntermediateTx (id : ActivityID) (data : TXEntry)
    (db : DB) : option error * DB :=
  Update (fun tx =>
    match marshalTX data with
    | None => (Some ErrJSON, tx)
    | Some dataJSON =>
        let idByte := ToBytes id in
        match Put idByte dataJSON (intermediate_tx tx) with
        | inl e => (Some e, tx)
        | inr b =>
            let tx := set_intermediate_tx b tx in
            match marshalID id with
            | None => (Some ErrJSON, tx)
            | Some idJSON =>
                match Delete idJSON (pending_intermediate_tx tx) with
                | inl e => (Some e, tx)
                | inr p => (None, set_pending_intermediate_tx p tx)
                end
            end
        end
    end) db.

(** The inner loop of [GetTradeHistory], from the position of the cursor:
    entries are decoded while their key is at most [max]. *)
Fixpoint scan_pair (max : string) (kvs : list (string * string))
    (pairsHistory : list TradeHistory) : error + list TradeHistory :=
  match kvs with
  | [] => inr pairsHistory
  | (pairKey, history) :: rest =>
      if bytes_le pairKey max then
        match unmarshalTrade history with
        | None => inl ErrJSON
        | Some pairHistory => scan_pair max rest (pairsHistory ++ [pairHistory])
        end
      else inr pairsHistory
  end.

(** The outer loop: it runs while the cursor is on a nested bucket. *)
Fixpoint scan_pairs (min max : string) (entries : list (string * entry))
    (exchangeHistory : gmap Z (list TradeHistory))
    : error + gmap Z (list TradeHistory) :=
  match entries with
  | (key, SubBucket kvs) :: rest =>
      match scan_pair max (Seek min kvs) [] with
      | inl e => inl e
      | inr pairsHistory =>
          scan_pairs min max rest
            (<[BytesToUint64 key := pairsHistory]> exchangeHistory)
      end
  | _ => inr exchangeHistory
  end.

(** [GetTradeHistory]: the result, the error and the database. *)
Definition GetTradeHistory (fromTime toTime : Z) (db : DB)
    : (gmap Z (list TradeHistory) * option error) * DB :=
  let result : gmap Z (list TradeHistory) := ∅ in
  if maxGetTradeHistory <? sub64 toTime fromTime then
    ((result, Some ErrRangeTooBroad), db)
  else
    let min := FormatUint fromTime in
    let max := FormatUint toTime in
    View (fun tx =>
      match scan_pairs min max (trade_history tx) ∅ with
      | inl e => (result, Some e)
      | inr exchangeHistory => (exchangeHistory, None)
      end) db.

(** The result of the read transaction of [GetTradeHistory]. *)
Definition scanned (fromTime toTime : Z) (db : DB)
    : gmap Z (list TradeHistory) * option error :=
  match scan_pairs (FormatUint fromTime) (FormatUint toTime) (trade_history db) ∅ with
  | inl e => (∅, Some e)
  | inr exchangeHistory => (exchangeHistory, None)
  end.

(** Where the entry of an id is: under its JSON key in the pending bucket,
    under its byte key in the confirmed bucket. *)
Definition in_pending (id : ActivityID) (db : DB) : Prop :=
  exists idJSON, marshalID id = Some idJSON /\
                 is_Some (pending_intermediate_tx db !! idJSON).

Definition in_confirmed (id : ActivityID) (db : DB) : Prop :=
  is_Some (intermediate_tx db !! ToBytes id).

(** Sequences of the two writing operations. *)
Inductive op : Type :=
  | StorePending (id : ActivityID) (data : TXEntry)
  | Promote (id : ActivityID) (data : TXEntry).

Definition step (db : DB) (o : op) : DB :=
  match o with
  | StorePending id data => (StorePendingIntermediateTx id data db).2
  | Promote id data => (StoreIntermediateTx id data db).2
  end.

Definition run (ops : list op) (db : DB) : DB := foldl step db ops.

(** A sequence without clashes of keys: an id is staged only while the
    confirmed bucket has no entry under the byte key of an id with the
    same JSON key, and an id is promoted only while every pending id with
    the same byte key is pending under the JSON key of the promoted id. *)
Fixpoint no_key_clash (ops : list op) (db : DB) : Prop :=
  match ops with
  | [] => True
  | o :: rest =>
      match o with
      | StorePending id _ =>
          forall id' j, marshalID id = Some j -> marshalID id' = Some j ->
                        ~ in_confirmed id' db
      | Promote id _ =>
          forall id', ToBytes id' = ToBytes id -> in_pending id' db ->
                      marshalID id' = marshalID id
      end /\ no_key_clash rest (step db o)
  end.

(** The invariant of the specification, and its sentence about all
    sequences. *)
Definition at_most_one_bucket (db : DB) : Prop :=
  forall id, ~ (in_pending id db /\ in_confirmed id db).

Definition exclusive_after_any_sequence : Prop :=
  forall ops, at_most_one_bucket (run ops db0).

End Storage.

Arguments StorePending {TXEntry}.
Arguments Promote {TXEntry}.

(** [isTheSame]: the lengths, then byte by byte.  [b[ix]] is within [b]
    whenever the loop is reached; outside it the model answers false. *)
Fixpoint isTheSame_from (ix : nat) (a b : string) : bool :=
  match a with
  | EmptyString => true
  | String v a' =>
      match String.get ix b with
      | Some c => if Ascii.eqb c v then isTheSame_from (S ix) a' b else false
      | None => false
      end
  end.

Definition isTheSame (a b : string) : bool :=
  if negb (String.length a =? String.length b)%nat then false
  else isTheSame_from 0 a b.

(** [cursor.Seek(key)] on a bucket without nested buckets: the entry with
    the least key that is not below [key], if there is one. *)
Definition Seek_bucket (key : string) (b : gmap string string)
    : option (string * string) :=
  foldr (fun kv best =>
           if bytes_le key kv.1 then
             match best with
             | Some kv' => if bytes_le kv.1 kv'.1 then Some kv else best
             | None => Some kv
             end
           else best)
        None (map_to_list b).

(** The entries of a bucket as a cursor walks them from [First] on: in
    the order of their keys. *)
Definition key_le (kv1 kv2 : string * string) : Prop :=
  bytes_le kv1.1 kv2.1 = true.

#[export] Instance key_le_dec kv1 kv2 : Decision (key_le kv1 kv2).
Proof. unfold key_le. apply _. Defined.

Definition cursor_order (b : gmap string string) : list (string * string) :=
  merge_sort key_le (map_to_list b).

(** The entries of a pair bucket whose key lies between the two ends of
    a scan, both included, in the order of the bytes. *)
Definition in_window (min max : string) (kv : string * string) : bool :=
  bytes_le min kv.1 && bytes_le kv.1 max.

(** Decoding a list of values, all or nothing. *)
Fixpoint decode_trades {TradeHistory : Type}
    (unmarshalTrade : string -> option TradeHistory) (data : list string)
    : option (list TradeHistory) :=
  match data with
  | [] => Some []
  | d :: rest =>
      match unmarshalTrade d with
      | None => None
      | Some t =>
          match decode_trades unmarshalTrade rest with
          | None => None
          | Some l => Some (t :: l)
          end
      end
  end.

Section Reads.

Variable TXEntry : Type.
Variable marshalTX : TXEntry -> option string.
Variable unmarshalTX : string -> option TXEntry.
Variable marshalID : ActivityID -> option string.
Variable unmarshalID : string -> option ActivityID.
Variable ToBytes : ActivityID -> string.

(** What [json.Unmarshal(v, &tx2)] leaves to return. *)
Definition decode_entry (v : string) : error + TXEntry :=
  match unmarshalTX v with
  | Some tx2 => inr tx2
  | None => inl ErrJSON
  end.

(** [GetIntermedatorTx]: a key [nil] of the cursor is the empty string;
    the entry returned beside an error is left out. *)
Definition GetIntermedatorTx (id : ActivityID) (db : DB)
    : (error + TXEntry) * DB :=
  View (fun tx =>
    let idBytes := ToBytes id in
    let kv := match Seek_bucket idBytes (intermediate_tx tx) with
              | Some kv => kv
              | None => (EmptyString, EmptyString)
              end in
    if isTheSame kv.1 idBytes then
      match unmarshalTX kv.2 with
      | Some tx2 => inr tx2
      | None => inl ErrJSON
      end
    else inl ErrNoSecondTx) db.

(** The loop of [GetPendingIntermediateTXs]: the map filled so far is
    returned beside the error of the first key or value that does not
    decode. *)
Fixpoint pending_loop (kvs : list (string * string))
    (result : gmap ActivityID TXEntry)
    : gmap ActivityID TXEntry * option error :=
  match kvs with
  | [] => (result, None)
  | (k, v) :: rest =>
      match unmarshalID k with
      | None => (result, Some ErrJSON)
      | Some actID =>
          match unmarshalTX v with
          | None => (result, Some ErrJSON)
          | Some record => pending_loop rest (<[actID := record]> result)
          end
      end
  end.

(** [GetPendingIntermediateTXs]. *)
Definition GetPendingIntermediateTXs (db : DB)
    : (gmap ActivityID TXEntry * option error) * DB :=
  View (fun tx => pending_loop (cursor_order (pending_intermediate_tx tx)) ∅) db.

(** Decoding undoes encoding. *)
Definition TX_round_trip : Prop :=
  forall data j, marshalTX data = Some j -> unmarshalTX j = Some data.

Definition ID_round_trip : Prop :=
  forall id j, marshalID id = Some j -> unmarshalID j = Some id.

(** Every key and value of the pending bucket is an encoding. *)
Definition pending_encoded (db : DB) : Prop :=
  forall k v, pending_intermediate_tx db !! k = Some v ->
    (exists id, marshalID id = Some k) /\ (exists data, marshalTX data = Some v).

End Reads.

(** Errors of [StoreTradeHistory]: of [CreateBucketIfNotExists], of
    [json.Marshal] and of [Put]. *)
Inductive store_error : Type :=
  | ErrBucketNameRequired
  | ErrIncompatibleValue
  | ErrMarshalTrade
  | ErrPutTrade (e : error).

(** The checks of [Bucket.Put] on the sizes of a key and a value. *)
Definition check_put (key value : string) : option error :=
  if (String.length key =? 0)%nat then Some ErrKeyRequired
  else if MaxKeySize <? Z.of_nat (String.length key) then Some ErrKeyTooLarge
  else if MaxValueSize <? Z.of_nat (String.length value) then Some ErrValueTooLarge
  else None.

(** Writing a key into entries kept in key order: the value under the key
    is replaced, or the entry takes its place in the order. *)
Fixpoint put_sorted {A : Type} (key : string) (value : A)
    (kvs : list (string * A)) : list (string * A) :=
  match kvs with
  | [] => [(key, value)]
  | (k, v) :: rest =>
      match String.compare key k with
      | Eq => (key, value) :: rest
      | Lt => (key, value) :: kvs
      | Gt => (k, v) :: put_sorted key value rest
      end
  end.

(** The entry under a key. *)
Fixpoint get_sorted {A : Type} (key : string) (kvs : list (string * A))
    : option A :=
  match kvs with
  | [] => None
  | (k, v) :: rest => if String.eqb key k then Some v else get_sorted key rest
  end.

(** [b.CreateBucketIfNotExists(name)] on the [trade_history] bucket. *)
Definition CreateBucketIfNotExists (name : string) (entries : list (string * entry))
    : store_error + list (string * entry) :=
  if (String.length name =? 0)%nat then inl ErrBucketNameRequired
  else
    match get_sorted name entries with
    | Some (SubBucket _) => inr entries
    | Some (Value _) => inl ErrIncompatibleValue
    | None => inr (put_sorted name (SubBucket []) entries)
    end.

(** [pairBk.Put(key, value)] for the nested bucket of the name. *)
Definition put_in (name key value : string) (entries : list (string * entry))
    : list (string * entry) :=
  map (fun e =>
         match e.2 with
         | SubBucket kvs =>
             if String.eqb name e.1
             then (e.1, SubBucket (put_sorted key value kvs))
             else e
         | Value _ => e
         end) entries.

(** Keys in strictly growing order, as bolt keeps them. *)
Definition str_lt (a b : string) : Prop := String.compare a b = Lt.

Definition ordered_keys (keys : list string) : Prop := StronglySorted str_lt keys.

Definition ordered (entries : list (string * entry)) : Prop :=
  ordered_keys entries.*1 /\
  Forall (fun e => match e.2 with
                   | SubBucket kvs => ordered_keys kvs.*1
                   | Value _ => True
                   end) entries.

Section Trades.

Variable TradeHistory : Type.
Variable marshalTrade : TradeHistory -> option string.
Variable Timestamp : TradeHistory -> Z.
Variable ID : TradeHistory -> string.
Variable Uint64ToBytes : Z -> string.

(** The key of a trade: the decimal text of its timestamp, then its id. *)
Definition trade_key (history : TradeHistory) : string :=
  (FormatUint (Timestamp history) ++ ID history)%string.

(** The inner loop of [StoreTradeHistory]. *)
Fixpoint store_pair_history (name : string) (pairHistory : list TradeHistory)
    (entries : list (string * entry)) : store_error + list (string * entry) :=
  match pairHistory with
  | [] => inr entries
  | history :: rest =>
      let idBytes := trade_key history in
      match marshalTrade history with
      | None => inl ErrMarshalTrade
      | Some dataJSON =>
          match check_put idBytes dataJSON with
          | Some e => inl (ErrPutTrade e)
          | None => store_pair_history name rest (put_in name idBytes dataJSON entries)
          end
      end
  end.

(** The outer loop, over the pairs in the order of the range. *)
Fixpoint store_pairs (data : list (Z * list TradeHistory))
    (entries : list (string * entry)) : store_error + list (string * entry) :=
  match data with
  | [] => inr entries
  | (pairID, pairHistory) :: rest =>
      match CreateBucketIfNotExists (Uint64ToBytes pairID) entries with
      | inl e => inl e
      | inr entries =>
          match store_pair_history (Uint64ToBytes pairID) pairHistory entries with
          | inl e => inl e
          | inr entries => store_pairs rest entries
          end
      end
  end.

(** [StoreTradeHistory]: one update transaction, rolled back on an
    error. *)
Definition StoreTradeHistory (data : gmap Z (list TradeHistory)) (db : DB)
    : option store_error * DB :=
  match store_pairs (map_to_list data) (trade_history db) with
  | inl e => (Some e, db)
  | inr entries =>
      (None, MkDB (intermediate_tx db) (pending_intermediate_tx db) entries (TxN db))
  end.

End Trades.

(** Codecs for the examples: an entry is its own JSON text and the empty
    entry does not encode; an id is written as one mark per unit of the
    timepoint, its sign, and the [EID]. *)
Definition marshal_text (data : string) : option string :=
  if (String.length data =? 0)%nat then None else Some data.

Fixpoint marks (n : nat) (s : string) : string :=
  match n with
  | O => s
  | S n' => String "1"%char (marks n' s)
  end.

Definition sign_char (z : Z) : ascii :=
  if z <? 0 then "-"%char else "+"%char.

Definition id_text (id : ActivityID) : string :=
  marks (Z.abs_nat (Timepoint id)) (String (sign_char (Timepoint id)) (EID id)).

Definition marshal_id_text (id : ActivityID) : option string := Some (id_text id).

Definition to_bytes_text (id : ActivityID) : string := String "b"%char (id_text id).

Definition unmarshal_text (j : string) : option string :=
  if (String.length j =? 0)%nat then None else Some j.

Fixpoint unmarshal_marks (n : nat) (s : string) : option ActivityID :=
  match s with
  | EmptyString => None
  | String c s' =>
      if Ascii.eqb c "1" then unmarshal_marks (S n) s'
      else if Ascii.eqb c "+" then Some (MkActivityID (Z.of_nat n) s')
      else if Ascii.eqb c "-" then Some (MkActivityID (- Z.of_nat n) s')
      else None
  end.

Definition unmarshal_id_text (j : string) : option ActivityID :=
  unmarshal_marks 0 j.

(** A byte key that keeps the timepoint only. *)
Definition to_bytes_timepoint (id : ActivityID) : string :=
  marks (Z.abs_nat (Timepoint id)) "t".

Definition dep1 : ActivityID := MkActivityID 5 "dep-1".
Definition dep2 : ActivityID := MkActivityID 7 "dep-2".

(** A second deposit of the timepoint of [dep1]. *)
Definition dep1b : ActivityID := MkActivityID 5 "dep-1b".

Definition clashing : list (op string) :=
  [StorePending dep1 "tx-1"; Promote dep1b "tx-1b"]%string.

(** Stage, promote, stage another id; and stage, promote, stage again. *)
Definition two_deposits : list (op string) :=
  [StorePending dep1 "tx-1"; Promote dep1 "tx-1"; StorePending dep2 "tx-2"]%string.

Definition restaged : list (op string) :=
  [StorePending dep1 "tx-1"; Promote dep1 "tx-1"; StorePending dep1 "tx-1b"]%string.

(** Two deposits staged and none promoted. *)
Definition both_staged : list (op string) :=
  [StorePending dep1 "tx-1"; StorePending dep2 "tx-2"]%string.

(** A trade bucket of one pair with three trades, for the examples. *)
Definition trade_text (s : string) : option string :=
  if (String.length s =? 0)%nat then None else Some s.

Definition pair_key (s : string) : Z := Z.of_nat (String.length s).

(** Trades for the examples: a trade is its JSON text, its id is that
    text and its timestamp is a thousand times the length of the text. *)
Definition trade_time (h : string) : Z := 1000 * Z.of_nat (String.length h).

Definition trade_id (h : string) : string := h.

Definition trades : DB :=
  MkDB ∅ ∅
    [("p"%string,
      SubBucket [("1000a", "t1"); ("2000b", "t2"); ("3000c", "t3")]%string)]
    0.

End Bolt.

(** ** storage: the postgres storage *)

Module Postgres.

Import Common.

Inductive fetchDataType : Type :=
  | priceDataType
  | rateDataType
  | authDataType
  | goldDataType
  | btcDataType
  | usdDataType.

#[export] Instance fetchDataType_eq_dec : EqDecision fetchDataType.
Proof. solve_decision. Defined.

Inductive error : Type :=
  | ErrJSON                       (* an error of encoding/json *)
  | ErrNoVersion (timepoint : Z)  (* "there is no version at timestamp: %d" *)
  | ErrCreate                     (* os.Create failed *)
  | ErrWrite.                     (* a Write on the export file failed *)

(** A row of ["fetch_data"] and a row of ["activity"].  [created] is a
    point in time. *)
Record fetch_data_row : Type := FetchDataRow {
  fd_id : Z;
  fd_created : Z;
  fd_data : string;
  fd_type : fetchDataType
}.

Record activity_row : Type := ActivityRow {
  act_id : Z;
  act_timepoint : Z;
  act_eid : string;
  act_created : Z;
  act_is_pending : bool;
  act_data : string
}.

(** The two tables of the schema, each with the sequence behind its
    [SERIAL] id.  No constraint besides the primary key on [id] exists:
    ["activity_idx"] on [(timepoint, eid)] is a plain index. *)
Record DB : Type := MkDB {
  fetch_data : list fetch_data_row;
  fetch_data_id_seq : Z;
  activity : list activity_row;
  activity_id_seq : Z
}.

Definition db0 : DB := MkDB [] 1 [] 1.

(** [ORDER BY created DESC LIMIT 1]: a row with the latest [created]; among
    rows with the same [created], which SQL leaves open, the first of the
    table. *)
Fixpoint order_by_created_desc_limit_1 (rows : list fetch_data_row)
    : option fetch_data_row :=
  match rows with
  | [] => None
  | r :: rest =>
      match order_by_created_desc_limit_1 rest with
      | None => Some r
      | Some r' => if fd_created r' <=? fd_created r then Some r else Some r'
      end
  end.

(** The ids of the rows of a category grow with their [created]: whenever
    one row is not created after another, its id is not greater. *)
Definition in_time_order (dataType : fetchDataType) (rows : list fetch_data_row)
    : bool :=
  forallb (fun r =>
    forallb (fun r' =>
      implb (bool_decide (fd_type r = dataType)
             && bool_decide (fd_type r' = dataType)
             && (fd_created r' <=? fd_created r))
            (fd_id r' <=? fd_id r)) rows) rows.

(** The export file: the chunks written so far, and for each coming call
    of [Write] whether it fails ([true]); calls beyond the list succeed. *)
Record File : Type := MkFile {
  written : list string;
  faults : list bool
}.

Definition Write (data : string) (f : File) : option error * File :=
  match faults f with
  | true :: rest => (Some ErrWrite, MkFile (written f) rest)
  | false :: rest => (None, MkFile (written f ++ [data]) rest)
  | [] => (None, MkFile (written f ++ [data]) [])
  end.

(** A query without [ORDER BY] yields the rows that meet its condition
    in an order of the database's choosing.  A [row_order] is such a
    choice for one execution of a query: a rearrangement of the rows
    that the condition selects from the table. *)
Record row_order (A : Type) : Type := MkRowOrder {
  arrange : list A -> list A;
  arrange_perm : forall rows, arrange rows ≡ₚ rows
}.

Arguments arrange {A} _ _.
Arguments arrange_perm {A} _ _.

(** [WHERE timepoint = $1 AND eid = $2]. *)
Definition has_id (id : ActivityID) (r : activity_row) : bool :=
  (act_timepoint r =? Timepoint id) && String.eqb (act_eid r) (EID id).

(** Some row of the ledger has the id. *)
Definition stored (id : ActivityID) (db : DB) : Prop :=
  exists r, r ∈ activity db /\ has_id id r = true.

Section Storage.

(** [common.MillisToTime]; the fetched data with its JSON encoder and
    its kind ([getDataType]); the retention of auth data; activity
    records with their constructor, encoder and [IsPending]. *)
Variable MillisToTime : Z -> Z.
Variable Data : Type.
Variable marshalData : Data -> option string.
Variable getDataType : Data -> fetchDataType.
Variable authDataExpiredDuration : Z.
Variables ActivityRecord ActivityParams ActivityResult : Type.
Variable NewActivityRecord :
  string -> ActivityID -> string -> ActivityParams -> ActivityResult ->
  string -> string -> string -> ActivityRecord.
Variable marshalActivity : ActivityRecord -> option string.
Variable IsPending : ActivityRecord -> bool.

(** [storeFetchData]. *)
Definition storeFetchData (data : Data) (timepoint : Z) (db : DB)
    : option error * DB :=
  let timestamp := MillisToTime timepoint in
  match marshalData data with
  | None => (Some ErrJSON, db)
  | Some dataJSON =>
      let dataType := getDataType data in
      (None,
       MkDB (fetch_data db
             ++ [FetchDataRow (fetch_data_id_seq db) timestamp dataJSON dataType])
            (fetch_data_id_seq db + 1) (activity db) (activity_id_seq db))
  end.

(** [currentVersion]. *)
Definition currentVersion (dataType : fetchDataType) (timepoint : Z) (db : DB)
    : error + Z :=
  let timestamp := MillisToTime timepoint in
  match order_by_created_desc_limit_1
          (List.filter (fun r => (fd_created r <=? timestamp)
                                 && bool_decide (fd_type r = dataType))
                       (fetch_data db)) with
  | None => inl (ErrNoVersion timepoint)
  | Some r => inr (fd_id r)
  end.

(** [WHERE type = 'auth_data' AND created < $2] of the export and of the
    pruning. *)
Definition expired (timepoint : Z) (r : fetch_data_row) : bool :=
  let timepointExpireData := sub64 timepoint authDataExpiredDuration in
  let timestampExpire := MillisToTime timepointExpireData in
  bool_decide (fd_type r = authDataType) && (fd_created r <? timestampExpire).

(** The loop of [ExportExpiredAuthData] over the rows of the query: the
    result of writing the data is dropped, that of writing the newline
    is checked. *)
Fixpoint export_rows (rows : list fetch_data_row) (count : Z) (outFile : File)
    : (Z * option error) * File :=
  match rows with
  | [] => ((count, None), outFile)
  | r :: rest =>
      let data := fd_data r in
      let '(_, outFile) := Write data outFile in
      let '(err, outFile) := Write (String "010"%char EmptyString) outFile in
      match err with
      | Some e => ((0, Some e), outFile)
      | None => export_rows rest (count + 1) outFile
      end
  end.

(** [ExportExpiredAuthData]; [created] is what [os.Create(filePath)]
    gave, [order] the order in which the query yields the expired
    rows. *)
Definition ExportExpiredAuthData (order : row_order fetch_data_row)
    (timepoint : Z) (created : option File) (db : DB)
    : (Z * option error) * option File :=
  match created with
  | None => ((0, Some ErrCreate), None)
  | Some outFile =>
      let '(r, outFile) :=
        export_rows
          (arrange order (List.filter (expired timepoint) (fetch_data db)))
          0 outFile in
      (r, Some outFile)
  end.

(** [PruneExpiredAuthData]. *)
Definition PruneExpiredAuthData (timepoint : Z) (db : DB)
    : (Z * option error) * DB :=
  ((Z.of_nat (length (List.filter (expired timepoint) (fetch_data db))), None),
   MkDB (List.filter (fun r => negb (expired timepoint r)) (fetch_data db))
        (fetch_data_id_seq db) (activity db) (activity_id_seq db)).

(** [UPDATE "activity" SET is_pending = $1, data = $2 WHERE timepoint = $3
    AND eid = $4]. *)
Definition update_activity (is_pending : bool) (data : string)
    (id : ActivityID) (rows : list activity_row) : list activity_row :=
  map (fun r => if has_id id r
                then ActivityRow (act_id r) (act_timepoint r) (act_eid r)
                                 (act_created r) is_pending data
                else r) rows.

(** [UpdateActivity]. *)
Definition UpdateActivity (id : ActivityID) (act : ActivityRecord) (db : DB)
    : option error * DB :=
  match List.filter (has_id id) (activity db) with
  | [] => (None, db)
  | _ :: _ =>
      match marshalActivity act with
      | None => (Some ErrJSON, db)
      | Some dataBytes =>
          if negb (IsPending act) then
            (None,
             MkDB (fetch_data db) (fetch_data_id_seq db)
                  (update_activity false dataBytes id (activity db))
                  (activity_id_seq db))
          else (None, db)
      end
  end.

(** [Record]. *)
Definition Record_ (action : string) (id : ActivityID) (destination : string)
    (params : ActivityParams) (result : ActivityResult)
    (estatus mstatus : string) (timepoint : Z) (db : DB)
    : option error * DB :=
  let record := NewActivityRecord action id destination params result
                  estatus mstatus (FormatUint timepoint) in
  let timestamp := MillisToTime timepoint in
  match marshalActivity record with
  | None => (Some ErrJSON, db)
  | Some data =>
      (None,
       MkDB (fetch_data db) (fetch_data_id_seq db)
            (activity db
             ++ [ActivityRow (activity_id_seq db) (Timepoint id) (EID id)
                             timestamp true data])
            (activity_id_seq db + 1))
  end.

(** The sentence of the specification about [CurrentVersion]: the
    greatest id among the rows of the category created at or before the
    time, an error when there is none. *)
Definition in_scope (dataType : fetchDataType) (timepoint : Z)
    (r : fetch_data_row) : Prop :=
  fd_type r = dataType /\ fd_created r <= MillisToTime timepoint.

Definition CurrentVersion_spec (dataType : fetchDataType) (timepoint : Z)
    (db : DB) (res : error + Z) : Prop :=
  match res with
  | inr v =>
      exists r, r ∈ fetch_data db /\ in_scope dataType timepoint r /\
                fd_id r = v /\
                forall r', r' ∈ fetch_data db -> in_scope dataType timepoint r' ->
                           fd_id r' <= v
  | inl _ =>
      forall r', r' ∈ fetch_data db -> ~ in_scope dataType timepoint r'
  end.

(** The sentence about [Record]: it fails when the id is in the ledger. *)
Definition Record_conflict_spec (action : string) (id : ActivityID)
    (destination : string) (params : ActivityParams) (result : ActivityResult)
    (estatus mstatus : string) (timepoint : Z) (db : DB) : Prop :=
  (exists r, r ∈ activity db /\ has_id id r = true) ->
  (Record_ action id destination params result estatus mstatus timepoint db).1
    <> None.

(** The sentence about the cases of [UpdateActivity]: without an activity
    of the id, success and no change; with one and a record that is not
    pending, the payload of the id is overwritten and its pending flag
    false; with one and a record that is pending, success and no
    change. *)
Definition UpdateActivity_spec (id : ActivityID) (act : ActivityRecord)
    (db : DB) : Prop :=
  (~ stored id db -> UpdateActivity id act db = (None, db)) /\
  (stored id db -> IsPending act = false ->
   exists data,
     Forall (fun r => has_id id r = true ->
                      act_data r = data /\ act_is_pending r = false)
            (activity (UpdateActivity id act db).2)) /\
  (stored id db -> IsPending act = true ->
   UpdateActivity id act db = (None, db)).

(** The sentence about two calls of [UpdateActivity] with a settled
    record: the state after the second is the state after the first, and
    the second returns no error. *)
Definition UpdateActivity_twice_spec (id : ActivityID) (act : ActivityRecord)
    (db : DB) : Prop :=
  IsPending act = false ->
  (UpdateActivity id act (UpdateActivity id act db).2).2
    = (UpdateActivity id act db).2 /\
  (UpdateActivity id act (UpdateActivity id act db).2).1 = None.

End Storage.

(** Errors of the reading functions: [sql.ErrNoRows] and an error of
    [json.Unmarshal]. *)
Inductive read_error : Type :=
  | ErrNoRows
  | ErrUnmarshal.

Section Reads.

Variable MillisToTime : Z -> Z.
Variable Data : Type.
Variable unmarshalData : fetchDataType -> string -> option Data.
Variable ActivityRecord : Type.
Variable unmarshalActivity : string -> option ActivityRecord.

(** [getData] for a target of the given kind: the row with the id and the
    kind, decoded.  The value left in the target beside an error is left
    out. *)
Definition getData (dataType : fetchDataType) (v : Z) (db : DB)
    : read_error + Data :=
  match List.filter (fun r => (fd_id r =? v) && bool_decide (fd_type r = dataType))
                    (fetch_data db) with
  | [] => inl ErrNoRows
  | r :: _ =>
      match unmarshalData dataType (fd_data r) with
      | Some o => inr o
      | None => inl ErrUnmarshal
      end
  end.

(** The decoding loop of [GetRates]. *)
Fixpoint decode_rates (data : list string) (rates : list Data)
    : read_error + list Data :=
  match data with
  | [] => inr rates
  | dataByte :: rest =>
      match unmarshalData rateDataType dataByte with
      | None => inl ErrUnmarshal
      | Some rate => decode_rates rest (rates ++ [rate])
      end
  end.

(** [GetRates]: the rates created from [fromTime] to [toTime], both ends
    included, in the order in which the query yields them. *)
Definition GetRates (order : row_order fetch_data_row) (fromTime toTime : Z)
    (db : DB) : read_error + list Data :=
  let from := MillisToTime fromTime in
  let to := MillisToTime toTime in
  decode_rates
    (map fd_data
       (arrange order
          (List.filter (fun r => bool_decide (fd_type r = rateDataType)
                                 && (from <=? fd_created r) && (fd_created r <=? to))
                       (fetch_data db)))) [].

(** The decoding loop of [GetAllRecords] and [GetPendingActivities]: a
    fresh record per row, appended to the result. *)
Fixpoint decode_activities (data : list string) (activities : list ActivityRecord)
    : read_error + list ActivityRecord :=
  match data with
  | [] => inr activities
  | dataByte :: rest =>
      match unmarshalActivity dataByte with
      | None => inl ErrUnmarshal
      | Some activity => decode_activities rest (activities ++ [activity])
      end
  end.

(** [GetAllRecords]: the activities of the window, in the order in which
    the query yields them. *)
Definition GetAllRecords (order : row_order activity_row) (fromTime toTime : Z)
    (db : DB) : read_error + list ActivityRecord :=
  let from := MillisToTime fromTime in
  let to := MillisToTime toTime in
  decode_activities
    (map act_data
       (arrange order
          (List.filter (fun r => (from <=? act_created r) && (act_created r <=? to))
                       (activity db)))) [].

(** [GetPendingActivities]: the pending activities, in the order in which
    the query yields them. *)
Definition GetPendingActivities (order : row_order activity_row) (db : DB)
    : read_error + list ActivityRecord :=
  decode_activities
    (map act_data (arrange order (List.filter act_is_pending (activity db)))) [].

(** [GetActivity]: of the rows of the id, the one that the query yields
    first. *)
Definition GetActivity (order : row_order activity_row) (id : ActivityID)
    (db : DB) : read_error + ActivityRecord :=
  match arrange order (List.filter (has_id id) (activity db)) with
  | [] => inl ErrNoRows
  | r :: _ =>
      match unmarshalActivity (act_data r) with
      | Some activityRecord => inr activityRecord
      | None => inl ErrUnmarshal
      end
  end.

(** [HasPendingDeposit].  [json_text data field] is [data ->> 'field'] of
    the query; the loop decodes every row into the one record declared
    before it, so [unmarshalActivityInto] takes the record as the row
    before left it; [Asset] is [Params.Asset].  The rows are scanned in
    the order in which the query yields them. *)
Variable json_text : string -> string -> option string.
Variable ActionDeposit : string.
Variable zeroActivity : ActivityRecord.
Variable unmarshalActivityInto : string -> ActivityRecord -> option ActivityRecord.
Variable Asset : ActivityRecord -> Z.

Definition pending_deposit_to (exchange : string) (r : activity_row) : bool :=
  act_is_pending r
  && bool_decide (json_text (act_data r) "Action" = Some ActionDeposit)
  && bool_decide (json_text (act_data r) "Destination" = Some exchange).

Fixpoint has_asset (token : Z) (data : list string)
    (pendingActivity : ActivityRecord) : bool * option read_error :=
  match data with
  | [] => (false, None)
  | activity :: rest =>
      match unmarshalActivityInto activity pendingActivity with
      | None => (false, Some ErrUnmarshal)
      | Some pendingActivity =>
          if Asset pendingActivity =? token then (true, None)
          else has_asset token rest pendingActivity
      end
  end.

Definition HasPendingDeposit (order : row_order activity_row) (token : Z)
    (exchange : string) (db : DB) : bool * option read_error :=
  has_asset token
    (map act_data
       (arrange order
          (List.filter (pending_deposit_to exchange) (activity db))))
    zeroActivity.

End Reads.

(** The ids of the rows are 1, 2, 3, ... in the order of the table, and
    the sequence stands at the next one. *)
Definition ids_in_order (db : DB) : Prop :=
  map fd_id (fetch_data db)
    = map Z.of_nat (seq 1 (length (fetch_data db))) /\
  fetch_data_id_seq db = 1 + Z.of_nat (length (fetch_data db)).

(** Storing a list of data, each with its timepoint, whether or not a
    call returns an error. *)
Definition store_all (MillisToTime : Z -> Z) (Data : Type)
    (marshalData : Data -> option string) (getDataType : Data -> fetchDataType)
    (inputs : list (Data * Z)) (db : DB) : DB :=
  foldl (fun db i =>
           (storeFetchData MillisToTime Data marshalData getDataType i.1 i.2 db).2)
        db inputs.

(** The ids of ["fetch_data"] come from the sequence: every id is below
    the next value of the sequence. *)
Definition fetch_data_ids_fresh (db : DB) : Prop :=
  Forall (fun r => fd_id r < fetch_data_id_seq db) (fetch_data db).

(** Two orders for the examples: that of the table, and its reverse. *)
Definition table_order (A : Type) : row_order A :=
  MkRowOrder A (fun rows => rows) (fun rows => Permutation_refl rows).

Definition reverse_order (A : Type) : row_order A :=
  MkRowOrder A (@rev A) (fun rows => Permutation_sym (Permutation_rev rows)).

(** Instances for the examples: times are milliseconds, fetched data is
    its kind with its JSON text, an activity record is its JSON text with
    its pending flag. *)
Definition millis (t : Z) : Z := t.

Definition data_text (d : fetchDataType * string) : option string := Some d.2.

Definition activity_record (action : string) (id : ActivityID)
    (destination : string) (params result : unit)
    (estatus mstatus timestamp : string) : string * bool :=
  ((action ++ ":" ++ EID id ++ ":" ++ destination ++ ":" ++ mstatus)%string, true).

Definition activity_text (a : string * bool) : option string := Some a.1.

Definition store (k : fetchDataType) (text : string) (timepoint : Z) (db : DB) : DB :=
  (storeFetchData millis (fetchDataType * string) data_text fst
     (k, text) timepoint db).2.

(** Prices stored at 10, 20 and 30; and a price for time 20 stored before
    a price for time 10. *)
Definition three_prices : DB :=
  store priceDataType "p30" 30
    (store priceDataType "p20" 20 (store priceDataType "p10" 10 db0)).

Definition out_of_order : DB :=
  store priceDataType "p10" 10 (store priceDataType "p20" 20 db0).

Definition record (id : ActivityID) (db : DB) : option error * DB :=
  (Record_ millis (string * bool) unit unit activity_record activity_text)
    "deposit" id "binance" tt tt "" "submitted" 500 db.

Definition dep1 : ActivityID := MkActivityID 500 "dep-1".

Definition update (id : ActivityID) (act : string * bool) (db : DB)
    : option error * DB :=
  UpdateActivity (string * bool) activity_text snd id act db.

(** An encoder that fails, as [json.Marshal] may: it rejects the record
    of the empty text. *)
Definition activity_strict (a : string * bool) : option string :=
  match a.1 with
  | EmptyString => None
  | String _ _ => Some a.1
  end.

Definition update_strict (id : ActivityID) (act : string * bool) (db : DB)
    : option error * DB :=
  UpdateActivity (string * bool) activity_strict snd id act db.

(** A second codec for activity records, with its decoder: the pending
    flag as a first letter. *)
Definition activity_json (a : string * bool) : option string :=
  Some (String (if a.2 then "P" else "S")%char a.1).

Definition activity_unjson (s : string) : option (string * bool) :=
  match s with
  | String c t =>
      if Ascii.eqb c "P" then Some (t, true)
      else if Ascii.eqb c "S" then Some (t, false)
      else None
  | EmptyString => None
  end.

Definition record_json (id : ActivityID) (db : DB) : option error * DB :=
  (Record_ millis (string * bool) unit unit activity_record activity_json)
    "deposit" id "binance" tt tt "" "submitted" 500 db.

Definition dep2 : ActivityID := MkActivityID 600 "dep-2".

(** Every example row is a deposit to binance; the asset of a record is
    the length of its text. *)
Definition json_text_deposit (data field : string) : option string :=
  if String.eqb field "Action" then Some "deposit"%string
  else if String.eqb field "Destination" then Some "binance"%string
  else None.

Definition unjson_into (s : string) (_ : string * bool) : option (string * bool) :=
  activity_unjson s.

Definition asset_of (a : string * bool) : Z := Z.of_nat (String.length a.1).

Definition data_untext (k : fetchDataType) (s : string)
    : option (fetchDataType * string) := Some (k, s).

(** The ledger after one [Record] of [dep1] with the second codec. *)
Definition one_deposit_json : DB := (record_json dep1 db0).2.

(** The ledger after one [Record] of [dep1]. *)
Definition one_deposit : DB := (record dep1 db0).2.

(** The ledger after [Record] of [dep1] and of [dep2], both pending. *)
Definition two_pending : DB := (record_json dep2 one_deposit_json).2.

(** The ledger after [Record] of [dep1], its settling, and a second
    [Record] of [dep1]: two rows of the id with different payloads. *)
Definition settled_and_recorded : DB :=
  (record_json dep1
     (UpdateActivity (string * bool) activity_json snd dep1
        ("settled"%string, false) one_deposit_json).2).2.

(** Rates stored for the times 20 and 10, in this order. *)
Definition two_rates : DB :=
  store rateDataType "r10" 10 (store rateDataType "r20" 20 db0).

(** One auth snapshot stored at time 10, with a retention of 100 ms. *)
Definition one_auth : DB := store authDataType "a1" 10 db0.

(** Two auth snapshots stored at times 10 and 20. *)
Definition two_auth : DB := store authDataType "a2" 20 one_auth.

(** The export with a retention of 100 ms, the query yielding the rows
    in the order of the table. *)
Definition export (timepoint : Z) (created : option File) (db : DB)
    : (Z * option error) * option File :=
  ExportExpiredAuthData millis 100 (table_order fetch_data_row) timepoint
    created db.

End Postgres.

(** * Properties *)

(** ** Rebroadcaster *)

Section RebroadcasterFacts.

Import Blockchain.

Context {Client Tx Err : Type}.
Variable SendTransaction : Client -> Tx -> option Err.

Lemma loop_body_frame tx s kv :
  loop_body SendTransaction tx s kv =
  Frame (store_failure SendTransaction tx (failures s) kv) (wg s)
        (Cancel kv.1 :: deferred s) (trace s ++ block SendTransaction tx kv).
Proof.
  unfold loop_body, broadcast, block, store_failure.
  destruct (SendTransaction kv.2 tx);
    unfold defer, wg_Done, failures_Store, wg_Add, emit; cbn;
    repeat rewrite <- app_assoc; reflexivity.
Qed.

Lemma foldl_loop_body_frame tx l : forall s,
  foldl (loop_body SendTransaction tx) s l =
  Frame (foldl (store_failure SendTransaction tx) (failures s) l) (wg s)
        (rev (map (fun kv => Cancel kv.1) l) ++ deferred s)
        (trace s ++ concat (map (block SendTransaction tx) l)).
Proof.
  induction l as [|kv l IH]; intros s; cbn [foldl map concat rev].
  - rewrite app_nil_r. destruct s; reflexivity.
  - rewrite IH, loop_body_frame. cbn [failures wg deferred trace].
    rewrite <- !app_assoc. reflexivity.
Qed.

(** Every [wg.Add(1)] has met its [wg.Done()] when the loop ends. *)
Lemma Broadcast_loop_wg clients tx :
  wg (Broadcast_loop SendTransaction clients tx) = 0%nat.
Proof.
  unfold Broadcast_loop, Broadcast_loop_in. rewrite foldl_loop_body_frame.
  reflexivity.
Qed.

Lemma foldl_store_failure_lookup tx id l : forall f,
  NoDup l.*1 ->
  (forall c, (id, c) ∈ l -> f !! id = None) ->
  foldl (store_failure SendTransaction tx) f l !! id =
  match list_find (fun kv => kv.1 = id) l with
  | Some (_, kv) => SendTransaction kv.2 tx
  | None => f !! id
  end.
Proof.
  induction l as [|[k c] l IH]; intros f Hnd Hf; [reflexivity|].
  cbn [foldl]. inversion Hnd as [|? ? Hk Hnd']; subst.
  cbn [list_find]. cbn [fst]. destruct (decide (k = id)) as [->|Hne].
  - cbn. rewrite IH; [|assumption|].
    + assert (Hnone : list_find (fun kv : string * Client => kv.1 = id) l = None).
      { apply list_find_None, Forall_forall. intros [k' c'] Hin Heq.
        cbn in Heq. subst k'. apply Hk. apply list_elem_of_fmap. exists (id, c'). auto. }
      rewrite Hnone. unfold store_failure. cbn.
      destruct (SendTransaction c tx); [apply lookup_insert_eq|].
      apply (Hf c). left.
    + intros c' Hin. exfalso. apply Hk.
      apply list_elem_of_fmap. exists (id, c'). auto.
  - rewrite IH; [|assumption|].
    + destruct (list_find _ l) as [[i kv]|]; cbn; [reflexivity|].
      unfold store_failure. cbn.
      destruct (SendTransaction c tx); [|reflexivity].
      rewrite lookup_insert_ne by assumption. reflexivity.
    + intros c' Hin. unfold store_failure. cbn.
      destruct (SendTransaction c tx).
      * rewrite lookup_insert_ne by assumption. apply (Hf c'). right; assumption.
      * apply (Hf c'). right; assumption.
Qed.

(** Whatever the order of the range, the [sync.Map] at the end of the loop
    holds exactly the errors. *)
Lemma Broadcast_loop_in_failures (clients : gmap string Client) tx order :
  order ≡ₚ map_to_list clients ->
  failures (Broadcast_loop_in SendTransaction order tx) =
  omap (fun c => SendTransaction c tx) clients.
Proof.
  intros Hperm.
  unfold Broadcast_loop_in, frame0. rewrite foldl_loop_body_frame. cbn [failures].
  apply map_eq. intros id. rewrite lookup_omap.
  rewrite foldl_store_failure_lookup;
    [|rewrite Hperm; apply NoDup_fst_map_to_list|intros; apply lookup_empty].
  destruct (list_find _ order) as [[i [k c]]|] eqn:Hfind.
  - apply list_find_Some in Hfind as (Hi & Hk & _). cbn in Hk. subst k.
    apply list_elem_of_lookup_2 in Hi. rewrite Hperm in Hi.
    apply elem_of_map_to_list in Hi. rewrite Hi. reflexivity.
  - rewrite lookup_empty. destruct (clients !! id) as [c|] eqn:Hc; [|reflexivity].
    exfalso. apply elem_of_map_to_list in Hc. rewrite <- Hperm in Hc.
    eapply list_find_None in Hfind. rewrite Forall_forall in Hfind.
    apply (Hfind _ Hc). reflexivity.
Qed.

(** The [sync.Map] at the end of the loop holds exactly the errors. *)
Lemma Broadcast_loop_failures (clients : gmap string Client) tx :
  failures (Broadcast_loop SendTransaction clients tx) =
  omap (fun c => SendTransaction c tx) clients.
Proof. apply Broadcast_loop_in_failures. reflexivity. Qed.

Lemma failures_Range_id (f : gmap string Err) : failures_Range f = f.
Proof.
  unfold failures_Range.
  apply (map_fold_weak_ind (fun r m => r = m)); [reflexivity|].
  intros i x m r _ ->. reflexivity.
Qed.

(** Keeping only the errors: either every node failed and the size is
    kept, or some node succeeded and the map is strictly smaller. *)
Lemma size_omap_cases {A B} (f : A -> option B) (m : gmap string A) :
  (size (omap f m) = size m /\
   forall k a, m !! k = Some a -> f a <> None) \/
  ((size (omap f m) < size m)%nat /\
   exists k a, m !! k = Some a /\ f a = None).
Proof.
  induction m as [|k a m Hk IH] using map_ind.
  - left. rewrite omap_empty, map_size_empty. split; [reflexivity|].
    intros k a Hl. rewrite lookup_empty in Hl. discriminate.
  - rewrite map_size_insert_None by assumption.
    destruct (f a) as [b|] eqn:Hfa.
    + rewrite (omap_insert_Some f m k a b Hfa).
      rewrite map_size_insert_None by (rewrite lookup_omap, Hk; reflexivity).
      destruct IH as [[Hsz Hall]|[Hsz (k' & a' & Hl & Hnone)]].
      * left. split; [lia|]. intros k' a' Hl.
        apply lookup_insert_Some in Hl as [[<- <-]|[Hne Hl]];
          [congruence|eauto].
      * right. split; [lia|]. exists k', a'. split; [|assumption].
        rewrite lookup_insert_ne; [assumption|]. intros ->. congruence.
    + rewrite (omap_insert_None f m k a Hfa).
      rewrite delete_id by (rewrite lookup_omap, Hk; reflexivity).
      right. split.
      * destruct IH as [[Hsz _]|[Hsz _]]; lia.
      * exists k, a. split; [apply lookup_insert_eq|assumption].
Qed.

Lemma peak_ge tr : forall n, (n <= peak n tr)%nat.
Proof.
  induction tr as [|e tr IH]; intros n; [cbn; lia|].
  destruct e; cbn [peak]; try apply IH; lia.
Qed.

Lemma peak_level_app tr1 : forall n tr2,
  peak n (tr1 ++ tr2) = Nat.max (peak n tr1) (peak (level n tr1) tr2) /\
  level n (tr1 ++ tr2) = level (level n tr1) tr2 /\
  (n <= peak n tr1)%nat.
Proof.
  induction tr1 as [|e tr1 IH]; intros n tr2.
  - cbn. pose proof (peak_ge tr2 n). repeat split; lia.
  - destruct e; cbn [app peak level];
      try (destruct (IH n tr2) as (-> & -> & ?); repeat split; lia).
    + destruct (IH (S n) tr2) as (-> & -> & ?). repeat split; lia.
    + destruct (IH (pred n) tr2) as (-> & -> & ?). repeat split; lia.
Qed.

Lemma block_peak tx kv : peak 0 (block SendTransaction tx kv) = 1%nat /\ level 0 (block SendTransaction tx kv) = 0%nat.
Proof. unfold block. destruct (SendTransaction kv.2 tx); cbn; split; reflexivity. Qed.

Lemma blocks_peak tx l :
  (peak 0 (concat (map (block SendTransaction tx) l)) <= 1)%nat /\
  level 0 (concat (map (block SendTransaction tx) l)) = 0%nat.
Proof.
  induction l as [|kv l [IHp IHl]]; cbn [map concat]; [cbn; split; lia|].
  destruct (peak_level_app (block SendTransaction tx kv) 0 (concat (map (block SendTransaction tx) l)))
    as (-> & -> & _).
  destruct (block_peak tx kv) as [-> ->]. split; [lia|assumption].
Qed.

Lemma cancels_peak (l : list (string * Client)) n :
  peak n (map (fun kv => Cancel kv.1) l) = n.
Proof. induction l as [|kv l IH]; cbn; [reflexivity|assumption]. Qed.

(** Whatever the order of the range, the wait group is back at zero and
    no two submissions are outstanding at any point of the loop. *)
Lemma Broadcast_loop_in_sequential order tx :
  wg (Broadcast_loop_in SendTransaction order tx) = 0%nat /\
  (max_in_flight (trace (Broadcast_loop_in SendTransaction order tx)) <= 1)%nat.
Proof.
  unfold Broadcast_loop_in, frame0. rewrite foldl_loop_body_frame.
  cbn [wg trace app]. split; [reflexivity|].
  apply (blocks_peak tx order).
Qed.

(** C1, as amended: [Broadcast] always returns; the failures map holds
    exactly the nodes whose submission returned an error, with that
    error; and the returned boolean is true if and only if at least one
    node succeeded (so it is true when every node of a non-empty set
    succeeds, and false when every node fails or the set is empty). *)
Theorem Broadcast_partialSuccess_iff (clients : gmap string Client) (tx : Tx) :
  exists result partialSuccess,
    Broadcast SendTransaction clients tx = Some (result, partialSuccess) /\
    result = omap (fun c => SendTransaction c tx) clients /\
    (partialSuccess = true <->
     exists id c, clients !! id = Some c /\ SendTransaction c tx = None).
Proof.
  unfold Broadcast. rewrite Broadcast_loop_wg, failures_Range_id.
  rewrite Broadcast_loop_failures.
  eexists _, _. split; [reflexivity|]. split; [reflexivity|].
  rewrite andb_true_iff, negb_true_iff, Nat.eqb_neq, Nat.ltb_lt.
  destruct (size_omap_cases (fun c => SendTransaction c tx) clients)
    as [[Hsz Hall]|[Hsz Hex]].
  - split; [intros [Hne _]; congruence|].
    intros (id & c & Hl & Hnone). exfalso. exact (Hall id c Hl Hnone).
  - split; [intros _; exact Hex|]. intros _. split; lia.
Qed.

(** C9: the submissions of one call are strictly sequential.  The trace
    is one complete block per node (add, context with a 3000 ms timeout,
    send called, send returned, failure stored, done), then the wait, the
    copy of the failures and the deferred cancels in reverse order; at no
    point are two submissions outstanding. *)
Theorem Broadcast_submissions_sequential (clients : gmap string Client) (tx : Tx) :
  Broadcast_trace SendTransaction clients tx =
    concat (map (block SendTransaction tx) (map_to_list clients))
    ++ [WgWait; FailuresRange]
    ++ rev (map (fun kv => Cancel kv.1) (map_to_list clients)) /\
  (max_in_flight (Broadcast_trace SendTransaction clients tx) <= 1)%nat.
Proof.
  assert (Heq : Broadcast_trace SendTransaction clients tx =
    concat (map (block SendTransaction tx) (map_to_list clients))
    ++ [WgWait; FailuresRange]
    ++ rev (map (fun kv => Cancel kv.1) (map_to_list clients))).
  { unfold Broadcast_trace, Broadcast_loop, Broadcast_loop_in, frame0.
    rewrite foldl_loop_body_frame. cbn [trace deferred app].
    rewrite app_nil_r. reflexivity. }
  split; [exact Heq|]. rewrite Heq. unfold max_in_flight.
  destruct (blocks_peak tx (map_to_list clients)) as [Hp Hl].
  destruct (peak_level_app (concat (map (block SendTransaction tx) (map_to_list clients))) 0
    ([WgWait; FailuresRange]
     ++ rev (map (fun kv => Cancel kv.1) (map_to_list clients))))
    as (-> & _ & _).
  rewrite Hl. cbn [app peak]. rewrite <- map_rev, cancels_peak. lia.
Qed.

End RebroadcasterFacts.

(** With three nodes that all accept, the boolean is true although no node
    failed: the sentence of the specification does not hold of the code. *)
Lemma Broadcast_all_succeed_not_spec :
  Blockchain.Broadcast Blockchain.send_bool (Blockchain.nodes true true true) tt
    = Some (∅, true) /\
  ~ Blockchain.partialSuccess_spec Blockchain.send_bool
      (Blockchain.nodes true true true) tt true.
Proof.
  split; [vm_compute; reflexivity|].
  unfold Blockchain.partialSuccess_spec. intros [H _].
  destruct (H eq_refl) as (_ & (id & c & e & Hl & He) & _).
  unfold Blockchain.nodes in Hl.
  repeat (apply lookup_insert_Some in Hl as [[_ <-]|[_ Hl]]; [discriminate He|]).
  rewrite lookup_empty in Hl. discriminate.
Qed.

(** The three outcomes on three nodes: one accepted; all accepted; none. *)
Example Broadcast_three_nodes :
  snd <$> Blockchain.Broadcast Blockchain.send_bool (Blockchain.nodes true false false) tt
    = Some true /\
  snd <$> Blockchain.Broadcast Blockchain.send_bool (Blockchain.nodes true true true) tt
    = Some true /\
  snd <$> Blockchain.Broadcast Blockchain.send_bool (Blockchain.nodes false false false) tt
    = Some false /\
  snd <$> Blockchain.Broadcast Blockchain.send_bool ∅ tt = Some false.
Proof. vm_compute. repeat split. Qed.

(** Two nodes: the second submission is called after the first returned. *)
Example Broadcast_two_nodes_trace :
  Blockchain.sends
    (Blockchain.Broadcast_trace Blockchain.send_bool
       (<["A"%string := true]> (<["B"%string := false]> ∅)) tt)
  = [Blockchain.SendCall "A"; Blockchain.SendReturn "A";
     Blockchain.SendCall "B"; Blockchain.SendReturn "B"]%string.
Proof. vm_compute. reflexivity. Qed.

(** ** Bolt storage: intermediate transactions *)

Section BoltFacts.

Import Common Bolt.

Context {TXEntry : Type}.
Variable marshalTX : TXEntry -> option string.
Variable marshalID : ActivityID -> option string.
Variable ToBytes : ActivityID -> string.

Abbreviation StorePendingTx := (StorePendingIntermediateTx TXEntry marshalTX marshalID).
Abbreviation PromoteTx := (StoreIntermediateTx TXEntry marshalTX marshalID ToBytes).
Abbreviation inP := (in_pending marshalID).
Abbreviation inC := (in_confirmed ToBytes).

Lemma Put_inr key value b b' :
  Put key value b = inr b' -> b' = <[key := value]> b.
Proof.
  unfold Put. repeat case_match; intros Heq; inversion Heq; reflexivity.
Qed.

(** What a promotion leaves behind: on success the confirmed bucket has
    the encoded entry under the byte key and the pending bucket has lost
    the JSON key; on an error the database is the one before the call. *)
Lemma StoreIntermediateTx_cases id data db :
  (exists dataJSON idJSON,
      marshalTX data = Some dataJSON /\ marshalID id = Some idJSON /\
      PromoteTx id data db =
        (None, MkDB (<[ToBytes id := dataJSON]> (intermediate_tx db))
                    (delete idJSON (pending_intermediate_tx db))
                    (trade_history db) (TxN db))) \/
  (exists e, PromoteTx id data db = (Some e, db)).
Proof.
  unfold StoreIntermediateTx, Update.
  destruct (marshalTX data) as [dataJSON|]; [|right; eexists; reflexivity].
  destruct (Put (ToBytes id) dataJSON (intermediate_tx db)) as [e|b] eqn:HPut;
    [right; eexists; reflexivity|].
  apply Put_inr in HPut. subst b. cbn.
  destruct (marshalID id) as [idJSON|]; [|right; eexists; reflexivity].
  left. exists dataJSON, idJSON. repeat split; reflexivity.
Qed.

(** Staging writes the pending bucket only, or nothing at all. *)
Lemma StorePendingIntermediateTx_cases id data db :
  (exists dataJSON idJSON,
      marshalTX data = Some dataJSON /\ marshalID id = Some idJSON /\
      StorePendingTx id data db =
        (None, MkDB (intermediate_tx db)
                    (<[idJSON := dataJSON]> (pending_intermediate_tx db))
                    (trade_history db) (TxN db))) \/
  (StorePendingTx id data db).2 = db.
Proof.
  unfold StorePendingIntermediateTx, Update.
  destruct (marshalTX data) as [dataJSON|]; [|right; reflexivity].
  destruct (marshalID id) as [idJSON|]; [|right; reflexivity].
  destruct (Put idJSON dataJSON (pending_intermediate_tx db)) as [e|b] eqn:HPut;
    [right; reflexivity|].
  apply Put_inr in HPut. subst b. left. exists dataJSON, idJSON.
  repeat split; reflexivity.
Qed.

Lemma at_most_one_bucket_db0 : at_most_one_bucket marshalID ToBytes db0.
Proof.
  intros id [_ [x Hx]]. unfold db0 in Hx. cbn in Hx.
  rewrite lookup_empty in Hx. discriminate.
Qed.

Lemma StoreIntermediateTx_preserves id data db :
  (forall id', ToBytes id' = ToBytes id -> inP id' db ->
               marshalID id' = marshalID id) ->
  at_most_one_bucket marshalID ToBytes db ->
  at_most_one_bucket marshalID ToBytes (PromoteTx id data db).2.
Proof.
  intros Hguard Inv.
  destruct (StoreIntermediateTx_cases id data db)
    as [(dj & ij & _ & Hid & ->)|[e ->]]; [|exact Inv].
  intros id' [(j' & Hj' & Hp) Hc]. cbn in Hp, Hc. unfold in_confirmed in Hc.
  cbn in Hc. destruct (decide (ij = j')) as [->|Hnj].
  { rewrite lookup_delete_eq in Hp. destruct Hp as [? ?]; discriminate. }
  rewrite lookup_delete_ne in Hp by assumption.
  assert (HP : inP id' db) by (exists j'; auto).
  destruct (decide (ToBytes id' = ToBytes id)) as [Heq|Hne].
  - specialize (Hguard id' Heq HP). congruence.
  - rewrite lookup_insert_ne in Hc by congruence.
    apply (Inv id'). split; assumption.
Qed.

Lemma StorePendingIntermediateTx_preserves id data db :
  (forall id' j, marshalID id = Some j -> marshalID id' = Some j ->
                 ~ inC id' db) ->
  at_most_one_bucket marshalID ToBytes db ->
  at_most_one_bucket marshalID ToBytes (StorePendingTx id data db).2.
Proof.
  intros Hguard Inv.
  destruct (StorePendingIntermediateTx_cases id data db)
    as [(dj & ij & _ & Hid & ->)|Hsame]; [|rewrite Hsame; exact Inv].
  intros id' [(j' & Hj' & Hp) Hc]. cbn in Hp. unfold in_confirmed in Hc.
  cbn in Hc. destruct (decide (ij = j')) as [->|Hnj].
  - exact (Hguard id' j' Hid Hj' Hc).
  - rewrite lookup_insert_ne in Hp by assumption.
    apply (Inv id'). split; [|exact Hc]. exists j'. auto.
Qed.

Lemma run_preserves ops : forall db,
  at_most_one_bucket marshalID ToBytes db ->
  no_key_clash TXEntry marshalTX marshalID ToBytes ops db ->
  at_most_one_bucket marshalID ToBytes
    (run TXEntry marshalTX marshalID ToBytes ops db).
Proof.
  induction ops as [|o ops IH]; intros db Inv Hs; [exact Inv|].
  destruct Hs as [Ho Hs]. cbn [run foldl]. apply IH; [|exact Hs].
  destruct o as [id data|id data]; cbn [step].
  - apply StorePendingIntermediateTx_preserves; assumption.
  - apply StoreIntermediateTx_preserves; assumption.
Qed.

(** C2, as amended.  A promotion either fails and leaves the database as
    it was, or puts the encoded entry under the byte key of the id in the
    confirmed bucket and removes the JSON key of the id from the pending
    bucket, so that the id is then confirmed and not pending.  Whatever
    the two key encodings are, every id is in at most one bucket after any
    sequence of the two operations on the fresh database in which no keys
    clash: an id is staged only while no id with its JSON key has its
    byte key in the confirmed bucket, and an id is promoted only while
    every pending id with its byte key is pending under its JSON key. *)
Theorem StoreIntermediateTx_atomic_exclusive :
  (forall id data db,
      (exists e, PromoteTx id data db = (Some e, db)) \/
      (exists dataJSON idJSON db',
          PromoteTx id data db = (None, db') /\
          marshalTX data = Some dataJSON /\ marshalID id = Some idJSON /\
          intermediate_tx db' = <[ToBytes id := dataJSON]> (intermediate_tx db) /\
          pending_intermediate_tx db' = delete idJSON (pending_intermediate_tx db) /\
          trade_history db' = trade_history db /\ TxN db' = TxN db /\
          inC id db' /\ ~ inP id db')) /\
  (forall ops,
     no_key_clash TXEntry marshalTX marshalID ToBytes ops db0 ->
     at_most_one_bucket marshalID ToBytes
       (run TXEntry marshalTX marshalID ToBytes ops db0)).
Proof.
  split.
  - intros id data db.
    destruct (StoreIntermediateTx_cases id data db)
      as [(dj & ij & Hd & Hid & Heq)|[e He]]; [right|left; eauto].
    eexists dj, ij, _. split; [exact Heq|]. cbn.
    repeat (split; [reflexivity || assumption|]). split.
    + unfold in_confirmed. cbn. rewrite lookup_insert_eq. eauto.
    + intros (j' & Hj' & Hp). cbn in Hp. assert (j' = ij) by congruence.
      subst j'. rewrite lookup_delete_eq in Hp. destruct Hp as [? ?]; discriminate.
  - intros ops Hs.
    apply run_preserves; auto using at_most_one_bucket_db0.
Qed.

End BoltFacts.

(** The example JSON encoding of an id is injective. *)
Lemma marks_inj n : forall m c c' s s',
  c <> "1"%char -> c' <> "1"%char ->
  Bolt.marks n (String c s) = Bolt.marks m (String c' s') ->
  n = m /\ c = c' /\ s = s'.
Proof.
  induction n as [|n IH]; intros [|m] c c' s s' Hc Hc' Heq; cbn in Heq.
  - inversion Heq. auto.
  - inversion Heq. congruence.
  - inversion Heq. congruence.
  - inversion Heq as [Heq']. destruct (IH _ _ _ _ _ Hc Hc' Heq') as (-> & -> & ->).
    auto.
Qed.

Lemma id_text_inj a b : Bolt.id_text a = Bolt.id_text b -> a = b.
Proof.
  destruct a as [ta ea], b as [tb eb]. unfold Bolt.id_text. cbn.
  intros Heq. apply marks_inj in Heq as (Hn & Hc & ->).
  - f_equal. unfold Bolt.sign_char in Hc.
    destruct (Z.ltb_spec ta 0), (Z.ltb_spec tb 0); try discriminate; lia.
  - unfold Bolt.sign_char. destruct (ta <? 0); discriminate.
  - unfold Bolt.sign_char. destruct (tb <? 0); discriminate.
Qed.

Lemma marshal_id_text_inj a b j :
  Bolt.marshal_id_text a = Some j -> Bolt.marshal_id_text b = Some j -> a = b.
Proof.
  unfold Bolt.marshal_id_text. intros Ha Hb. apply id_text_inj. congruence.
Qed.

(** Staging, promoting and staging a second deposit keeps every id in at
    most one bucket, also with a byte key that keeps the timepoint only. *)
Lemma StoreIntermediateTx_atomic_exclusive_witness :
  Bolt.at_most_one_bucket Bolt.marshal_id_text Bolt.to_bytes_timepoint
    (Bolt.run string Bolt.marshal_text Bolt.marshal_id_text Bolt.to_bytes_timepoint
       Bolt.two_deposits Bolt.db0).
Proof.
  apply (proj2 (StoreIntermediateTx_atomic_exclusive
                  Bolt.marshal_text Bolt.marshal_id_text Bolt.to_bytes_timepoint)).
  cbn [Bolt.no_key_clash Bolt.two_deposits]. repeat split.
  - intros id' j _ _ [x Hx]. vm_compute in Hx. discriminate Hx.
  - intros id' _ (j' & Hj' & [x Hx]).
    change (Bolt.pending_intermediate_tx
              (Bolt.step string Bolt.marshal_text Bolt.marshal_id_text
                 Bolt.to_bytes_timepoint Bolt.db0
                 (Bolt.StorePending Bolt.dep1 "tx-1"%string)))
      with (<[Bolt.id_text Bolt.dep1 := "tx-1"%string]> (∅ : gmap string string))
      in Hx.
    apply lookup_insert_Some in Hx as [[<- _]|[_ Hx]];
      [exact Hj'|rewrite lookup_empty in Hx; discriminate].
  - intros id' j Hj Hj' [x Hx].
    assert (id' = Bolt.dep2) by (eapply marshal_id_text_inj; eassumption).
    subst id'. vm_compute in Hx. discriminate Hx.
Defined.

(** With the byte key of the timepoint only, staging one deposit and
    promoting another of the same timepoint leaves the first in both
    buckets: the clash that the sequences of the theorem exclude. *)
Example clashing_in_both_buckets :
  Bolt.in_pending Bolt.marshal_id_text Bolt.dep1
    (Bolt.run string Bolt.marshal_text Bolt.marshal_id_text Bolt.to_bytes_timepoint
       Bolt.clashing Bolt.db0) /\
  Bolt.in_confirmed Bolt.to_bytes_timepoint Bolt.dep1
    (Bolt.run string Bolt.marshal_text Bolt.marshal_id_text Bolt.to_bytes_timepoint
       Bolt.clashing Bolt.db0).
Proof.
  split.
  - exists (Bolt.id_text Bolt.dep1). split; [reflexivity|].
    exists "tx-1"%string. vm_compute. reflexivity.
  - exists "tx-1b"%string. vm_compute. reflexivity.
Qed.

(** Staging an id again after its promotion leaves it in both buckets: the
    sentence about all sequences does not hold of the code. *)
Lemma restaged_in_both_buckets :
  Bolt.in_pending Bolt.marshal_id_text Bolt.dep1
    (Bolt.run string Bolt.marshal_text Bolt.marshal_id_text Bolt.to_bytes_text
       Bolt.restaged Bolt.db0) /\
  Bolt.in_confirmed Bolt.to_bytes_text Bolt.dep1
    (Bolt.run string Bolt.marshal_text Bolt.marshal_id_text Bolt.to_bytes_text
       Bolt.restaged Bolt.db0) /\
  ~ Bolt.exclusive_after_any_sequence string Bolt.marshal_text
      Bolt.marshal_id_text Bolt.to_bytes_text.
Proof.
  assert (HP : Bolt.in_pending Bolt.marshal_id_text Bolt.dep1
    (Bolt.run string Bolt.marshal_text Bolt.marshal_id_text Bolt.to_bytes_text
       Bolt.restaged Bolt.db0)).
  { exists (Bolt.id_text Bolt.dep1). split; [reflexivity|].
    exists "tx-1b"%string. vm_compute. reflexivity. }
  assert (HC : Bolt.in_confirmed Bolt.to_bytes_text Bolt.dep1
    (Bolt.run string Bolt.marshal_text Bolt.marshal_id_text Bolt.to_bytes_text
       Bolt.restaged Bolt.db0)).
  { exists "tx-1"%string. vm_compute. reflexivity. }
  repeat split; [exact HP|exact HC|].
  intros Hall. exact (Hall Bolt.restaged Bolt.dep1 (conj HP HC)).
Qed.

(** ** Bolt storage: trade history *)

Section TradeHistoryFacts.

Import Common Bolt.

Context {TradeHistory : Type}.
Variable unmarshalTrade : string -> option TradeHistory.
Variable BytesToUint64 : string -> Z.

Abbreviation GetHistory := (GetTradeHistory TradeHistory unmarshalTrade BytesToUint64).
Abbreviation scan := (scan_pairs TradeHistory unmarshalTrade BytesToUint64).

Lemma scan_pair_error max kvs : forall acc e,
  scan_pair TradeHistory unmarshalTrade max kvs acc = inl e -> e = ErrJSON.
Proof.
  induction kvs as [|[k h] kvs IH]; intros acc e; cbn; [discriminate|].
  destruct (bytes_le k max); [|discriminate].
  destruct (unmarshalTrade h); [apply IH|congruence].
Qed.

Lemma scan_pairs_error min max entries : forall acc e,
  scan min max entries acc = inl e -> e = ErrJSON.
Proof.
  induction entries as [|[key [v|kvs]] entries IH]; intros acc e; cbn;
    try discriminate.
  destruct (scan_pair _ _ _ _ _) as [e'|h] eqn:Hp.
  - intros Heq. inversion Heq; subst. eapply scan_pair_error; eassumption.
  - apply IH.
Qed.

Lemma GetTradeHistory_rejected fromTime toTime db :
  maxGetTradeHistory < sub64 toTime fromTime ->
  GetHistory fromTime toTime db = ((∅, Some ErrRangeTooBroad), db).
Proof.
  intros Hw. unfold GetTradeHistory. apply Z.ltb_lt in Hw. rewrite Hw. reflexivity.
Qed.

(** C7: the maximum window is 259200000 ms.  A call whose [uint64]
    difference [toTime - fromTime] is greater fails with the
    range-too-broad error and an empty history, and leaves the database,
    its count of read transactions included, untouched; a call whose
    difference is at most the maximum runs the scan in one read
    transaction and never answers with the range error.  For [uint64]
    times with [fromTime <= toTime] the difference is the width of the
    window. *)
Theorem GetTradeHistory_range_guard (fromTime toTime : Z) (db : DB) :
  maxGetTradeHistory = 259200000 /\
  (maxGetTradeHistory < sub64 toTime fromTime ->
   GetHistory fromTime toTime db = ((∅, Some ErrRangeTooBroad), db)) /\
  (sub64 toTime fromTime <= maxGetTradeHistory ->
   GetHistory fromTime toTime db =
     (scanned TradeHistory unmarshalTrade BytesToUint64 fromTime toTime db,
      MkDB (intermediate_tx db) (pending_intermediate_tx db)
           (trade_history db) (S (TxN db))) /\
   (scanned TradeHistory unmarshalTrade BytesToUint64 fromTime toTime db).2
     <> Some ErrRangeTooBroad) /\
  (is_uint64 fromTime -> is_uint64 toTime -> fromTime <= toTime ->
   sub64 toTime fromTime = toTime - fromTime).
Proof.
  split; [reflexivity|].
  split; [intros Hw; apply GetTradeHistory_rejected; exact Hw|].
  split.
  - intros Hw. unfold GetTradeHistory.
    assert (Hle : (maxGetTradeHistory <? sub64 toTime fromTime) = false)
      by (apply Z.ltb_ge; exact Hw).
    rewrite Hle. split; [reflexivity|]. unfold scanned.
    destruct (scan_pairs _ _ _ _ _ _ _) as [e|h] eqn:Hs; cbn; [|discriminate].
    apply scan_pairs_error in Hs. subst e. discriminate.
  - unfold is_uint64, sub64. intros. apply Z.mod_small. lia.
Qed.

(** C10: for [uint64] times with [toTime < fromTime] whose distance is
    below [2^64 - 259200000], the unsigned difference wraps to
    [2^64 - (fromTime - toTime)], which is above the maximum window, and
    the call is rejected with the range-too-broad error and an empty
    history without a read transaction. *)
Theorem GetTradeHistory_inverted_range_rejected (fromTime toTime : Z) (db : DB) :
  is_uint64 fromTime -> is_uint64 toTime ->
  toTime < fromTime ->
  fromTime - toTime < 2 ^ 64 - 259200000 ->
  sub64 toTime fromTime = 2 ^ 64 - (fromTime - toTime) /\
  maxGetTradeHistory < sub64 toTime fromTime /\
  GetHistory fromTime toTime db = ((∅, Some ErrRangeTooBroad), db).
Proof.
  unfold is_uint64. intros Hf Ht Hlt Hd.
  assert (Hsub : sub64 toTime fromTime = 2 ^ 64 - (fromTime - toTime)).
  { unfold sub64.
    replace (toTime - fromTime) with (2 ^ 64 - (fromTime - toTime) + (-1) * 2 ^ 64)
      by lia.
    rewrite Z.mod_add by lia. apply Z.mod_small. lia. }
  assert (Hmax : maxGetTradeHistory < sub64 toTime fromTime).
  { rewrite Hsub. unfold maxGetTradeHistory. lia. }
  repeat split; [exact Hsub|exact Hmax|].
  apply GetTradeHistory_rejected. exact Hmax.
Qed.

End TradeHistoryFacts.

(** A window of three days and one millisecond is rejected; a window of
    one second is scanned and yields the trade between its ends. *)
Lemma GetTradeHistory_range_guard_witness :
  Bolt.GetTradeHistory string Bolt.trade_text Bolt.pair_key 1500 259201501 Bolt.trades
    = ((∅, Some Bolt.ErrRangeTooBroad), Bolt.trades) /\
  Bolt.GetTradeHistory string Bolt.trade_text Bolt.pair_key 1500 2500 Bolt.trades
    = ((<[1 := ["t2"%string]]> ∅, None), Bolt.MkDB ∅ ∅ (Bolt.trade_history Bolt.trades) 1).
Proof.
  split.
  - apply (proj1 (proj2 (GetTradeHistory_range_guard
                           Bolt.trade_text Bolt.pair_key 1500 259201501 Bolt.trades))).
    vm_compute. reflexivity.
  - rewrite (proj1 (proj1 (proj2 (proj2 (GetTradeHistory_range_guard
                           Bolt.trade_text Bolt.pair_key 1500 2500 Bolt.trades)))
                     ltac:(vm_compute; discriminate))).
    vm_compute. reflexivity.
Defined.

(** From 2500 back to 1500. *)
Lemma GetTradeHistory_inverted_range_rejected_witness :
  Bolt.GetTradeHistory string Bolt.trade_text Bolt.pair_key 2500 1500 Bolt.trades
    = ((∅, Some Bolt.ErrRangeTooBroad), Bolt.trades).
Proof.
  apply (GetTradeHistory_inverted_range_rejected
           Bolt.trade_text Bolt.pair_key 2500 1500 Bolt.trades);
    unfold Common.is_uint64; lia.
Defined.

(** Outside the bound of the distance the guard lets an inverted range
    through: from [2^64 - 1] to [0] the difference wraps to [1]. *)
Example GetTradeHistory_far_inverted_range_scanned :
  Common.sub64 0 (2 ^ 64 - 1) = 1 /\
  (Bolt.GetTradeHistory string Bolt.trade_text Bolt.pair_key (2 ^ 64 - 1) 0 Bolt.trades).1
    = (<[1 := []]> ∅, None).
Proof. vm_compute. split; reflexivity. Qed.

(** ** Postgres storage: versions of fetched data *)

Section FetchDataFacts.

Import Common Postgres.

Variable MillisToTime : Z -> Z.

Lemma order_by_created_desc_limit_1_None rows :
  order_by_created_desc_limit_1 rows = None -> rows = [].
Proof.
  destruct rows as [|r rest]; [reflexivity|]. cbn.
  destruct (order_by_created_desc_limit_1 rest) as [r'|]; [|discriminate].
  destruct (fd_created r' <=? fd_created r); discriminate.
Qed.

Lemma order_by_created_desc_limit_1_Some rows : forall r,
  order_by_created_desc_limit_1 rows = Some r ->
  In r rows /\ forall r', In r' rows -> fd_created r' <= fd_created r.
Proof.
  induction rows as [|r0 rest IH]; intros r; cbn; [discriminate|].
  destruct (order_by_created_desc_limit_1 rest) as [r1|] eqn:Hrest.
  - destruct (IH r1 eq_refl) as [Hin Hmax].
    destruct (Z.leb_spec (fd_created r1) (fd_created r0)) as [Hle|Hgt];
      intros Heq; inversion Heq; subst.
    + split; [left; reflexivity|]. intros r' [<-|Hr']; [lia|].
      specialize (Hmax r' Hr'). lia.
    + split; [right; exact Hin|]. intros r' [<-|Hr']; [lia|auto].
  - intros Heq; inversion Heq; subst.
    apply order_by_created_desc_limit_1_None in Hrest. subst rest.
    split; [left; reflexivity|]. intros r' [<-|[]]. lia.
Qed.

Lemma in_scope_filter dataType timepoint r :
  (fd_created r <=? MillisToTime timepoint) && bool_decide (fd_type r = dataType)
    = true <->
  in_scope MillisToTime dataType timepoint r.
Proof.
  unfold in_scope. rewrite andb_true_iff, Z.leb_le, bool_decide_eq_true. tauto.
Qed.

Lemma in_time_order_le dataType rows r r' :
  in_time_order dataType rows = true ->
  In r rows -> In r' rows ->
  fd_type r = dataType -> fd_type r' = dataType ->
  fd_created r' <= fd_created r -> fd_id r' <= fd_id r.
Proof.
  unfold in_time_order. intros Hord Hr Hr' Ht Ht' Hle.
  rewrite forallb_forall in Hord. specialize (Hord r Hr).
  rewrite forallb_forall in Hord. specialize (Hord r' Hr').
  rewrite (bool_decide_eq_true_2 _ Ht), (bool_decide_eq_true_2 _ Ht') in Hord.
  apply Z.leb_le in Hle. rewrite Hle in Hord. cbn in Hord.
  apply Z.leb_le. exact Hord.
Qed.

(** C3, as amended: [currentVersion] returns the id of a row of the
    category whose created time is the latest among the rows of the
    category created at or before the time of the query, and fails with
    the no-version error exactly when the category has no row at or
    before that time.  When the ids of the rows of the category grow with
    their created times, the id returned is the greatest id among the rows
    of the category created at or before the time of the query. *)
Theorem currentVersion_latest_created (dataType : fetchDataType)
    (timepoint : Z) (db : DB) :
  match currentVersion MillisToTime dataType timepoint db with
  | inr v =>
      exists r, r ∈ fetch_data db /\
                in_scope MillisToTime dataType timepoint r /\
                fd_id r = v /\
                forall r', r' ∈ fetch_data db ->
                           in_scope MillisToTime dataType timepoint r' ->
                           fd_created r' <= fd_created r
  | inl e =>
      e = ErrNoVersion timepoint /\
      forall r', r' ∈ fetch_data db ->
                 ~ in_scope MillisToTime dataType timepoint r'
  end /\
  (in_time_order dataType (fetch_data db) = true ->
   CurrentVersion_spec MillisToTime dataType timepoint db
     (currentVersion MillisToTime dataType timepoint db)).
Proof.
  assert (Hmain :
    match currentVersion MillisToTime dataType timepoint db with
    | inr v =>
        exists r, r ∈ fetch_data db /\
                  in_scope MillisToTime dataType timepoint r /\
                  fd_id r = v /\
                  forall r', r' ∈ fetch_data db ->
                             in_scope MillisToTime dataType timepoint r' ->
                             fd_created r' <= fd_created r
    | inl e =>
        e = ErrNoVersion timepoint /\
        forall r', r' ∈ fetch_data db ->
                   ~ in_scope MillisToTime dataType timepoint r'
    end).
  { unfold currentVersion.
    destruct (order_by_created_desc_limit_1 _) as [r|] eqn:Hsel.
    - apply order_by_created_desc_limit_1_Some in Hsel as [Hin Hmax].
      apply filter_In in Hin as [Hin Hsc]. apply in_scope_filter in Hsc.
      exists r. split; [apply list_elem_of_In; exact Hin|].
      split; [exact Hsc|]. split; [reflexivity|].
      intros r' Hr' Hsc'. apply Hmax. apply filter_In.
      split; [apply list_elem_of_In; exact Hr'|]. apply in_scope_filter. exact Hsc'.
    - apply order_by_created_desc_limit_1_None in Hsel.
      split; [reflexivity|]. intros r' Hr' Hsc'.
      assert (Hin : In r' (List.filter
                (fun r => (fd_created r <=? MillisToTime timepoint)
                          && bool_decide (fd_type r = dataType)) (fetch_data db))).
      { apply filter_In. split; [apply list_elem_of_In; exact Hr'|].
        apply in_scope_filter. exact Hsc'. }
      rewrite Hsel in Hin. destruct Hin. }
  split; [exact Hmain|]. intros Hord.
  destruct (currentVersion MillisToTime dataType timepoint db) as [e|v]; cbn.
  - apply Hmain.
  - destruct Hmain as (r & Hr & Hsc & Hid & Hmax).
    exists r. repeat split; try assumption; try apply Hsc.
    intros r' Hr' Hsc'. subst v.
    apply (in_time_order_le dataType (fetch_data db) r r' Hord);
      try (apply list_elem_of_In; assumption);
      try apply Hsc; try apply Hsc'. apply Hmax; assumption.
Qed.

End FetchDataFacts.

(** Prices stored in time order: the version at 25 is the greatest id
    created at or before 25. *)
Lemma currentVersion_latest_created_witness :
  Postgres.CurrentVersion_spec Postgres.millis Postgres.priceDataType 25
    Postgres.three_prices
    (Postgres.currentVersion Postgres.millis Postgres.priceDataType 25
       Postgres.three_prices).
Proof.
  apply (proj2 (currentVersion_latest_created Postgres.millis
                  Postgres.priceDataType 25 Postgres.three_prices)).
  vm_compute. reflexivity.
Defined.

(** Records created at 10, 20 and 30: a query at 25 resolves to the record
    created at 20 (the second id), a query at 5 fails. *)
Example currentVersion_as_of :
  Postgres.currentVersion Postgres.millis Postgres.priceDataType 25
    Postgres.three_prices = inr 2 /\
  Postgres.currentVersion Postgres.millis Postgres.priceDataType 5
    Postgres.three_prices = inl (Postgres.ErrNoVersion 5).
Proof. vm_compute. split; reflexivity. Qed.

(** A price for time 20 stored before a price for time 10: a query at 25
    resolves to the first id, which is not the greatest id created at or
    before 25. *)
Lemma currentVersion_not_greatest_id :
  Postgres.currentVersion Postgres.millis Postgres.priceDataType 25
    Postgres.out_of_order = inr 1 /\
  ~ Postgres.CurrentVersion_spec Postgres.millis Postgres.priceDataType 25
      Postgres.out_of_order
      (Postgres.currentVersion Postgres.millis Postgres.priceDataType 25
         Postgres.out_of_order).
Proof.
  split; [vm_compute; reflexivity|].
  replace (Postgres.currentVersion Postgres.millis Postgres.priceDataType 25
             Postgres.out_of_order) with (@inr Postgres.error Z 1)
    by (vm_compute; reflexivity).
  intros (r & _ & _ & _ & Hmax).
  specialize (Hmax (Postgres.FetchDataRow 2 10 "p10" Postgres.priceDataType)).
  cbn in Hmax. enough (2 <= 1) by lia. apply Hmax.
  - apply list_elem_of_In. vm_compute. right. left. reflexivity.
  - split; [reflexivity|]. vm_compute. discriminate.
Qed.

(** ** Postgres storage: the activity ledger *)

Section ActivityFacts.

Import Common Postgres.

Context {ActivityRecord : Type}.
Variable marshalActivity : ActivityRecord -> option string.
Variable IsPending : ActivityRecord -> bool.

Abbreviation Update_ := (UpdateActivity ActivityRecord marshalActivity IsPending).

Lemma filter_has_id_nil id db :
  List.filter (has_id id) (activity db) = [] <-> ~ stored id db.
Proof.
  split.
  - intros Hnil (r & Hr & Hid).
    assert (Hin : In r (List.filter (has_id id) (activity db)))
      by (apply filter_In; split; [apply list_elem_of_In|]; assumption).
    rewrite Hnil in Hin. destruct Hin.
  - intros Hno. destruct (List.filter (has_id id) (activity db)) as [|r l] eqn:Hf;
      [reflexivity|]. exfalso. apply Hno. exists r.
    assert (Hin : In r (List.filter (has_id id) (activity db)))
      by (rewrite Hf; left; reflexivity).
    apply filter_In in Hin as [Hin Hid]. split; [apply list_elem_of_In|]; assumption.
Qed.

Lemma has_id_update_activity id id' b data r :
  has_id id' (if has_id id r
              then ActivityRow (act_id r) (act_timepoint r) (act_eid r)
                               (act_created r) b data
              else r) = has_id id' r.
Proof. destruct (has_id id r); reflexivity. Qed.

Lemma filter_has_id_update_activity id' id b data rows :
  List.filter (has_id id') (update_activity b data id rows) = [] <->
  List.filter (has_id id') rows = [].
Proof.
  unfold update_activity.
  induction rows as [|r rows IH]; cbn [map List.filter]; [tauto|].
  rewrite has_id_update_activity. destruct (has_id id' r); [|exact IH].
  split; discriminate.
Qed.

Lemma update_activity_idem b data id rows :
  update_activity b data id (update_activity b data id rows)
  = update_activity b data id rows.
Proof.
  unfold update_activity. rewrite map_map. apply map_ext. intros r.
  destruct (has_id id r) eqn:Hid; [|rewrite Hid; reflexivity].
  unfold has_id in *. cbn. rewrite Hid. reflexivity.
Qed.

(** The rows of an update: those of the id have the new payload and are
    not pending, the others are as before. *)
Lemma update_activity_rows data id rows :
  Forall2 (fun r r' =>
             if has_id id r
             then act_data r' = data /\ act_is_pending r' = false /\
                  act_id r' = act_id r /\ act_timepoint r' = act_timepoint r /\
                  act_eid r' = act_eid r /\ act_created r' = act_created r
             else r' = r)
          rows (update_activity false data id rows).
Proof.
  induction rows as [|r rows IH]; cbn; constructor; [|exact IH].
  destruct (has_id id r); [repeat split|reflexivity].
Qed.

(** A record that does not encode is answered with the encoder's error
    whenever the id is stored, pending or not. *)
Lemma UpdateActivity_marshal_error id act db :
  stored id db -> marshalActivity act = None ->
  Update_ id act db = (Some ErrJSON, db).
Proof.
  intros Hst Hm. unfold UpdateActivity.
  destruct (List.filter (has_id id) (activity db)) eqn:Hf.
  - apply filter_has_id_nil in Hf. contradiction.
  - rewrite Hm. reflexivity.
Qed.

(** C5, as amended: without a stored activity of the id,
    [UpdateActivity] returns nil and the database is unchanged.  With
    one, the record is encoded first, before it is asked whether it is
    pending: a record that does not encode gets the encoder's error back
    and nothing changes, pending or not; a record that encodes and is not
    pending replaces the payload of the rows of the id and clears their
    pending flag, all else unchanged, and nil is returned; a record that
    encodes and is pending changes nothing and nil is returned. *)
Theorem UpdateActivity_cases (id : ActivityID) (act : ActivityRecord) (db : DB) :
  (~ stored id db -> Update_ id act db = (None, db)) /\
  (stored id db -> marshalActivity act = None ->
   Update_ id act db = (Some ErrJSON, db)) /\
  (stored id db -> IsPending act = false ->
   forall data, marshalActivity act = Some data ->
     exists db', Update_ id act db = (None, db') /\
       fetch_data db' = fetch_data db /\
       fetch_data_id_seq db' = fetch_data_id_seq db /\
       activity_id_seq db' = activity_id_seq db /\
       Forall2 (fun r r' =>
                  if has_id id r
                  then act_data r' = data /\ act_is_pending r' = false /\
                       act_id r' = act_id r /\
                       act_timepoint r' = act_timepoint r /\
                       act_eid r' = act_eid r /\
                       act_created r' = act_created r
                  else r' = r)
               (activity db) (activity db')) /\
  (stored id db -> IsPending act = true ->
   (Update_ id act db).2 = db /\
   ((Update_ id act db).1 = None <-> is_Some (marshalActivity act))).
Proof.
  split; [|split; [|split]].
  - intros Hno. unfold UpdateActivity. apply filter_has_id_nil in Hno.
    rewrite Hno. reflexivity.
  - apply UpdateActivity_marshal_error.
  - intros Hst Hp data Hm. unfold UpdateActivity.
    destruct (List.filter (has_id id) (activity db)) eqn:Hf;
      [apply filter_has_id_nil in Hf; contradiction|].
    rewrite Hm, Hp. cbn. eexists. split; [reflexivity|]. cbn.
    repeat (split; [reflexivity|]). apply update_activity_rows.
  - intros Hst Hp. unfold UpdateActivity.
    destruct (List.filter (has_id id) (activity db)) eqn:Hf;
      [apply filter_has_id_nil in Hf; contradiction|].
    rewrite Hp. destruct (marshalActivity act) as [data|]; cbn.
    + split; [reflexivity|]. split; [eauto|reflexivity].
    + split; [reflexivity|]. split; [discriminate|intros [? ?]; discriminate].
Qed.

(** C6, as amended: with a record that is not pending, a second
    [UpdateActivity] leaves the database exactly as the first one left it
    and returns what the first one returned: nil when the ledger has no
    activity of the id or the record encodes, and the encoder's error,
    after two calls that changed nothing, when the ledger has an activity
    of the id and the record does not encode. *)
Theorem UpdateActivity_idempotent (id : ActivityID) (act : ActivityRecord)
    (db : DB) :
  IsPending act = false ->
  (Update_ id act (Update_ id act db).2).2 = (Update_ id act db).2 /\
  (Update_ id act (Update_ id act db).2).1 = (Update_ id act db).1 /\
  (~ stored id db \/ is_Some (marshalActivity act) ->
   (Update_ id act (Update_ id act db).2).1 = None) /\
  (stored id db -> marshalActivity act = None ->
   (Update_ id act (Update_ id act db).2).1 = Some ErrJSON /\
   (Update_ id act (Update_ id act db).2).2 = db).
Proof.
  intros Hp.
  destruct (List.filter (has_id id) (activity db)) as [|r0 l] eqn:Hf.
  - assert (H1 : Update_ id act db = (None, db))
      by (unfold UpdateActivity; rewrite Hf; reflexivity).
    rewrite H1. cbn [fst snd]. rewrite H1. cbn [fst snd].
    split; [reflexivity|]. split; [reflexivity|]. split; [reflexivity|].
    intros Hst. apply filter_has_id_nil in Hf. contradiction.
  - assert (Hst : stored id db).
    { exists r0. assert (Hin : In r0 (List.filter (has_id id) (activity db)))
        by (rewrite Hf; left; reflexivity).
      apply filter_In in Hin as [Hin Hid].
      split; [apply list_elem_of_In|]; assumption. }
    destruct (marshalActivity act) as [data|] eqn:Hm.
    + assert (H1 : Update_ id act db =
                   (None, MkDB (fetch_data db) (fetch_data_id_seq db)
                               (update_activity false data id (activity db))
                               (activity_id_seq db)))
        by (unfold UpdateActivity; rewrite Hf, Hm, Hp; reflexivity).
      rewrite H1. cbn [fst snd]. unfold UpdateActivity. cbn [activity].
      destruct (List.filter (has_id id)
                  (update_activity false data id (activity db))) eqn:Hf'.
      * apply filter_has_id_update_activity in Hf'. congruence.
      * rewrite Hm, Hp. cbn [negb fst snd fetch_data fetch_data_id_seq
                               activity_id_seq].
        rewrite update_activity_idem.
        split; [reflexivity|]. split; [reflexivity|]. split; [reflexivity|].
        discriminate.
    + assert (H1 : Update_ id act db = (Some ErrJSON, db))
        by (unfold UpdateActivity; rewrite Hf, Hm; reflexivity).
      rewrite H1. cbn [fst snd]. rewrite H1. cbn [fst snd].
      split; [reflexivity|]. split; [reflexivity|]. split.
      * intros [Hno|[? ?]]; [contradiction|discriminate].
      * intros _ _. split; reflexivity.
Qed.

End ActivityFacts.

Section RecordFacts.

Import Common Postgres.

Variable MillisToTime : Z -> Z.
Context {ActivityRecord ActivityParams ActivityResult : Type}.
Variable NewActivityRecord :
  string -> ActivityID -> string -> ActivityParams -> ActivityResult ->
  string -> string -> string -> ActivityRecord.
Variable marshalActivity : ActivityRecord -> option string.

Abbreviation Rec_ :=
  (Record_ MillisToTime ActivityRecord ActivityParams ActivityResult
           NewActivityRecord marshalActivity).

(** C4, as amended: [Record] does not look the id up.  When the new
    record encodes, it returns nil and appends one pending row with the
    next serial id, the timepoint and eid of the id and the encoded
    record, whether or not the id is stored already; the rows before it
    are unchanged.  When the record does not encode, it returns that
    error and changes nothing. *)
Theorem Record_appends (action : string) (id : ActivityID)
    (destination : string) (params : ActivityParams) (result : ActivityResult)
    (estatus mstatus : string) (timepoint : Z) (db : DB) :
  match marshalActivity
          (NewActivityRecord action id destination params result estatus
             mstatus (FormatUint timepoint)) with
  | Some data =>
      Rec_ action id destination params result estatus mstatus timepoint db =
      (None,
       MkDB (fetch_data db) (fetch_data_id_seq db)
            (activity db
             ++ [ActivityRow (activity_id_seq db) (Timepoint id) (EID id)
                             (MillisToTime timepoint) true data])
            (activity_id_seq db + 1))
  | None =>
      Rec_ action id destination params result estatus mstatus timepoint db =
      (Some ErrJSON, db)
  end.
Proof. unfold Record_. destruct (marshalActivity _); reflexivity. Qed.

End RecordFacts.

Lemma one_deposit_stored : Postgres.stored Postgres.dep1 Postgres.one_deposit.
Proof.
  exists (Postgres.ActivityRow 1 500 "dep-1" 500 true
            "deposit:dep-1:binance:submitted").
  split; [vm_compute; left|reflexivity].
Qed.

Lemma db0_not_stored id : ~ Postgres.stored id Postgres.db0.
Proof. intros (r & Hr & _). inversion Hr. Qed.


(** The cases on a ledger without the deposit and on a ledger with it:
    a record that does not encode, a settled one and a pending one. *)
Lemma UpdateActivity_cases_witness :
  Postgres.update Postgres.dep1 ("settled"%string, false) Postgres.db0
    = (None, Postgres.db0) /\
  Postgres.update_strict Postgres.dep1 (EmptyString, true) Postgres.one_deposit
    = (Some Postgres.ErrJSON, Postgres.one_deposit) /\
  (exists db',
      Postgres.update Postgres.dep1 ("settled"%string, false) Postgres.one_deposit
        = (None, db') /\
      Postgres.activity db'
        = [Postgres.ActivityRow 1 500 "dep-1" 500 false "settled"]) /\
  Postgres.update Postgres.dep1 ("mined"%string, true) Postgres.one_deposit
    = (None, Postgres.one_deposit).
Proof.
  split; [|split; [|split]].
  - apply (proj1 (UpdateActivity_cases Postgres.activity_text snd Postgres.dep1
                    ("settled"%string, false) Postgres.db0)).
    apply db0_not_stored.
  - apply (proj1 (proj2 (UpdateActivity_cases Postgres.activity_strict snd
                           Postgres.dep1 (EmptyString, true)
                           Postgres.one_deposit)));
      [exact one_deposit_stored|reflexivity].
  - destruct (proj1 (proj2 (proj2 (UpdateActivity_cases Postgres.activity_text snd
                              Postgres.dep1 ("settled"%string, false)
                              Postgres.one_deposit)))
                one_deposit_stored eq_refl "settled"%string eq_refl)
      as (db' & Heq & _).
    exists db'. split; [exact Heq|].
    unfold Postgres.update in *. vm_compute in Heq. inversion Heq. reflexivity.
  - destruct (proj2 (proj2 (proj2 (UpdateActivity_cases Postgres.activity_text snd
                           Postgres.dep1 ("mined"%string, true)
                           Postgres.one_deposit)))
             one_deposit_stored eq_refl) as [Hdb Herr].
    unfold Postgres.update.
    destruct (Postgres.UpdateActivity (string * bool) Postgres.activity_text snd
                Postgres.dep1 ("mined"%string, true) Postgres.one_deposit)
      as [e db'].
    cbn [fst snd] in Hdb, Herr. f_equal; [|exact Hdb].
    apply Herr. eexists. reflexivity.
Defined.

(** A stored deposit and a record that does not encode: for the pending
    record the call returns the encoder's error, not success; for the
    settled record the row keeps its payload and its pending flag.  The
    sentence about the three cases holds of neither. *)
Lemma UpdateActivity_unencodable_not_spec :
  Postgres.update_strict Postgres.dep1 (EmptyString, true) Postgres.one_deposit
    = (Some Postgres.ErrJSON, Postgres.one_deposit) /\
  ~ Postgres.UpdateActivity_spec (string * bool) Postgres.activity_strict snd
      Postgres.dep1 (EmptyString, true) Postgres.one_deposit /\
  Postgres.activity
    (Postgres.update_strict Postgres.dep1 (EmptyString, false)
       Postgres.one_deposit).2
    = [Postgres.ActivityRow 1 500 "dep-1" 500 true
         "deposit:dep-1:binance:submitted"] /\
  ~ Postgres.UpdateActivity_spec (string * bool) Postgres.activity_strict snd
      Postgres.dep1 (EmptyString, false) Postgres.one_deposit.
Proof.
  split; [reflexivity|]. split; [|split; [reflexivity|]].
  - intros (_ & _ & Hpending).
    specialize (Hpending one_deposit_stored eq_refl). discriminate Hpending.
  - intros (_ & Hsettled & _).
    destruct (Hsettled one_deposit_stored eq_refl) as [data Hrows].
    vm_compute in Hrows. apply Forall_cons in Hrows as [Hrow _].
    destruct (Hrow eq_refl) as [_ Hflag]. discriminate Hflag.
Qed.

(** Settling the deposit twice, with a record that encodes and with one
    that does not. *)
Lemma UpdateActivity_idempotent_witness :
  ((Postgres.update Postgres.dep1 ("settled"%string, false)
      (Postgres.update Postgres.dep1 ("settled"%string, false)
         Postgres.one_deposit).2).2
   = (Postgres.update Postgres.dep1 ("settled"%string, false)
        Postgres.one_deposit).2 /\
   (Postgres.update Postgres.dep1 ("settled"%string, false)
      (Postgres.update Postgres.dep1 ("settled"%string, false)
         Postgres.one_deposit).2).1 = None) /\
  (Postgres.update_strict Postgres.dep1 (EmptyString, false)
     (Postgres.update_strict Postgres.dep1 (EmptyString, false)
        Postgres.one_deposit).2).1 = Some Postgres.ErrJSON.
Proof.
  split.
  - destruct (UpdateActivity_idempotent Postgres.activity_text snd Postgres.dep1
                ("settled"%string, false) Postgres.one_deposit eq_refl)
      as (Hdb & _ & Hnil & _).
    split; [exact Hdb|]. apply Hnil. right. eexists. reflexivity.
  - destruct (UpdateActivity_idempotent Postgres.activity_strict snd Postgres.dep1
                (EmptyString, false) Postgres.one_deposit eq_refl)
      as (_ & _ & _ & Herr).
    apply (Herr one_deposit_stored eq_refl).
Defined.

(** A stored deposit and a settled record that does not encode: the
    second call returns the encoder's error, as the first did.  The
    sentence about the second call holds of no such record. *)
Lemma UpdateActivity_second_call_error :
  (Postgres.update_strict Postgres.dep1 (EmptyString, false)
     (Postgres.update_strict Postgres.dep1 (EmptyString, false)
        Postgres.one_deposit).2).1 = Some Postgres.ErrJSON /\
  ~ Postgres.UpdateActivity_twice_spec (string * bool) Postgres.activity_strict
      snd Postgres.dep1 (EmptyString, false) Postgres.one_deposit.
Proof.
  split; [reflexivity|].
  intros Hspec. destruct (Hspec eq_refl) as [_ Hnil]. discriminate Hnil.
Qed.

(** A second [Record] of an id that is in the ledger returns nil and the
    ledger then has two rows of the id: the sentence about the conflict
    does not hold of the code. *)
Lemma Record_duplicate_id_accepted :
  (Postgres.record Postgres.dep1 Postgres.one_deposit).1 = None /\
  List.filter (Postgres.has_id Postgres.dep1)
    (Postgres.activity (Postgres.record Postgres.dep1 Postgres.one_deposit).2)
  = [Postgres.ActivityRow 1 500 "dep-1" 500 true "deposit:dep-1:binance:submitted";
     Postgres.ActivityRow 2 500 "dep-1" 500 true "deposit:dep-1:binance:submitted"] /\
  ~ Postgres.Record_conflict_spec Postgres.millis (string * bool) unit unit
      Postgres.activity_record Postgres.activity_text
      "deposit" Postgres.dep1 "binance" tt tt "" "submitted" 500
      Postgres.one_deposit.
Proof.
  split; [reflexivity|]. split; [vm_compute; reflexivity|].
  intros Hspec. apply (Hspec one_deposit_stored). reflexivity.
Qed.

(** ** Errors that are not returned *)

(** [StorePendingIntermediateTx] answers nil and writes nothing when the
    entry does not encode; [StoreIntermediateTx] returns the error. *)
Lemma StorePendingIntermediateTx_marshal_error {TXEntry : Type}
    (marshalTX : TXEntry -> option string)
    (marshalID : Common.ActivityID -> option string)
    (ToBytes : Common.ActivityID -> string)
    (id : Common.ActivityID) (data : TXEntry) (db : Bolt.DB) :
  marshalTX data = None ->
  Bolt.StorePendingIntermediateTx TXEntry marshalTX marshalID id data db
    = (None, db) /\
  Bolt.StoreIntermediateTx TXEntry marshalTX marshalID ToBytes id data db
    = (Some Bolt.ErrJSON, db).
Proof.
  intros Hm. unfold Bolt.StorePendingIntermediateTx, Bolt.StoreIntermediateTx,
    Bolt.Update. rewrite Hm. split; reflexivity.
Qed.

(** One expired row: when the write of its data fails and the write of the
    newline succeeds, the export counts the row and returns nil. *)
Lemma export_rows_data_write_error r written faults :
  Postgres.export_rows [r] 0 (Postgres.MkFile written (true :: false :: faults))
  = ((1, None), Postgres.MkFile (written ++ [String "010"%char EmptyString]) faults).
Proof. reflexivity. Qed.

(** C8, at the two failing inputs: an entry that does not encode is staged
    with a nil error and nothing written; an export whose write of the
    data of the one expired row fails ends with the count 1, a nil error
    and a file that holds the newline only. *)
Theorem swallowed_errors :
  (Bolt.marshal_text "" = None /\
   Bolt.StorePendingIntermediateTx string Bolt.marshal_text Bolt.marshal_id_text
     Bolt.dep1 ""%string Bolt.db0 = (None, Bolt.db0)) /\
  (Postgres.Write "a1" (Postgres.MkFile [] [true; false])
     = (Some Postgres.ErrWrite, Postgres.MkFile [] [false]) /\
   Postgres.export 1000 (Some (Postgres.MkFile [] [true; false])) Postgres.one_auth
     = ((1, None),
        Some (Postgres.MkFile [String "010"%char EmptyString] []))).
Proof. vm_compute. repeat split. Qed.

(** ** Bolt storage: reading the intermediate transactions *)

Lemma bytes_le_leb a b : Common.bytes_le a b = String.leb a b.
Proof. reflexivity. Qed.

Lemma bytes_le_refl a : Common.bytes_le a a = true.
Proof. rewrite bytes_le_leb. destruct (String.leb_total a a); assumption. Qed.

Lemma bytes_le_antisym a b :
  Common.bytes_le a b = true -> Common.bytes_le b a = true -> a = b.
Proof. rewrite !bytes_le_leb. apply String.leb_antisym. Qed.

Lemma get_app_length b1 c b2 :
  String.get (String.length b1) (b1 ++ String c b2) = Some c.
Proof. induction b1 as [|x b1 IH]; cbn; [reflexivity|exact IH]. Qed.

Lemma string_app_assoc_1 b1 c b2 :
  (b1 ++ String c b2)%string = ((b1 ++ String c EmptyString) ++ b2)%string.
Proof.
  induction b1 as [|x b1 IH]; [reflexivity|].
  change (String x (b1 ++ String c b2) = String x ((b1 ++ String c EmptyString) ++ b2)).
  f_equal. exact IH.
Qed.

Lemma string_length_app_1 b1 c :
  String.length (b1 ++ String c EmptyString) = S (String.length b1).
Proof.
  induction b1 as [|x b1 IH]; [reflexivity|].
  change (S (String.length (b1 ++ String c EmptyString)) = S (S (String.length b1))).
  f_equal. exact IH.
Qed.

Lemma isTheSame_from_spec a : forall b1 b2,
  String.length a = String.length b2 ->
  (Bolt.isTheSame_from (String.length b1) a (b1 ++ b2) = true <-> a = b2).
Proof.
  induction a as [|v a IH]; intros b1 [|c b2] Hlen; cbn in Hlen; try discriminate.
  - cbn. tauto.
  - cbn [Bolt.isTheSame_from]. rewrite get_app_length.
    destruct (Ascii.eqb_spec c v) as [->|Hne].
    + rewrite (string_app_assoc_1 b1 v b2), <- (string_length_app_1 b1 v).
      rewrite IH by congruence. split; congruence.
    + split; [discriminate|]. intros Heq. inversion Heq. congruence.
Qed.

Lemma isTheSame_spec (a b : string) : Bolt.isTheSame a b = true <-> a = b.
Proof.
  unfold Bolt.isTheSame.
  destruct (Nat.eqb_spec (String.length a) (String.length b)) as [Hlen|Hne]; cbn.
  - apply (isTheSame_from_spec a EmptyString b Hlen).
  - split; [discriminate|]. intros ->. congruence.
Qed.

(** X1: [isTheSame] answers true exactly when the two byte strings are
    equal. *)
Theorem isTheSame_eq (a b : string) : Bolt.isTheSame a b = true <-> a = b.
Proof. apply isTheSame_spec. Qed.

Section SeekFacts.

Variable key : string.

Abbreviation seek_step :=
  (fun (kv : string * string) (best : option (string * string)) =>
     if Common.bytes_le key kv.1 then
       match best with
       | Some kv' => if Common.bytes_le kv.1 kv'.1 then Some kv else best
       | None => Some kv
       end
     else best).

Lemma seek_list_candidate (l : list (string * string)) kv :
  foldr seek_step None l = Some kv ->
  kv ∈ l /\ Common.bytes_le key kv.1 = true.
Proof.
  revert kv. induction l as [|kv0 l IH]; intros kv; cbn; [discriminate|].
  destruct (Common.bytes_le key kv0.1) eqn:Hc.
  - destruct (foldr seek_step None l) as [kv'|] eqn:Hbest.
    + destruct (Common.bytes_le kv0.1 kv'.1); intros Heq; inversion Heq; subst.
      * split; [left|assumption].
      * destruct (IH kv eq_refl). split; [right|]; assumption.
    + intros Heq; inversion Heq; subst. split; [left|assumption].
  - intros Heq. destruct (IH kv Heq). split; [right|]; assumption.
Qed.

Lemma seek_list_found (l : list (string * string)) v :
  NoDup l.*1 -> (key, v) ∈ l -> foldr seek_step None l = Some (key, v).
Proof.
  induction l as [|kv0 l IH]; intros Hnd Hin; [inversion Hin|].
  inversion Hnd as [|? ? Hk Hnd']; subst. cbn [foldr].
  apply elem_of_cons in Hin as [<-|Hin].
  - cbn [fst]. rewrite bytes_le_refl.
    destruct (foldr seek_step None l) as [kv'|] eqn:Hbest; [|reflexivity].
    apply seek_list_candidate in Hbest as [_ Hle]. rewrite Hle. reflexivity.
  - rewrite (IH Hnd' Hin). cbn [fst].
    destruct (Common.bytes_le key kv0.1) eqn:Hc; [|reflexivity].
    destruct (Common.bytes_le kv0.1 key) eqn:Hc'; [|reflexivity].
    exfalso. apply Hk. assert (kv0.1 = key) by (apply bytes_le_antisym; assumption).
    apply list_elem_of_fmap. exists (key, v). split; [cbn; assumption|assumption].
Qed.

Lemma Seek_bucket_spec (b : gmap string string) :
  match b !! key with
  | Some v => Bolt.Seek_bucket key b = Some (key, v)
  | None =>
      match Bolt.Seek_bucket key b with
      | Some kv => kv.1 <> key
      | None => True
      end
  end.
Proof.
  unfold Bolt.Seek_bucket. destruct (b !! key) as [v|] eqn:Hl.
  - apply seek_list_found; [apply NoDup_fst_map_to_list|].
    apply elem_of_map_to_list. exact Hl.
  - destruct (foldr _ None (map_to_list b)) as [kv|] eqn:Hs; [|exact I].
    apply seek_list_candidate in Hs as [Hin _]. intros Heq.
    destruct kv as [k v]. cbn in Heq. subst k.
    apply elem_of_map_to_list in Hin. congruence.
Qed.

End SeekFacts.

Section BoltReadFacts.

Import Common Bolt.

Context {TXEntry : Type}.
Variable marshalTX : TXEntry -> option string.
Variable unmarshalTX : string -> option TXEntry.
Variable marshalID : ActivityID -> option string.
Variable unmarshalID : string -> option ActivityID.
Variable ToBytes : ActivityID -> string.

Abbreviation GetTx := (GetIntermedatorTx TXEntry unmarshalTX ToBytes).
Abbreviation ListPending := (GetPendingIntermediateTXs TXEntry unmarshalTX unmarshalID).
Abbreviation StageTx := (StorePendingIntermediateTx TXEntry marshalTX marshalID).
Abbreviation PromoteTx' := (StoreIntermediateTx TXEntry marshalTX marshalID ToBytes).
Abbreviation encoded := (pending_encoded TXEntry marshalTX marshalID).

Abbreviation decoded := (decode_entry TXEntry unmarshalTX).

Lemma GetIntermedatorTx_found id db v :
  intermediate_tx db !! ToBytes id = Some v ->
  (GetTx id db).1 = decoded v.
Proof.
  intros Hl. unfold GetIntermedatorTx, View. cbn [fst].
  pose proof (Seek_bucket_spec (ToBytes id) (intermediate_tx db)) as Hs.
  rewrite Hl in Hs. rewrite Hs. cbn [fst snd].
  rewrite (proj2 (isTheSame_spec _ _) eq_refl). reflexivity.
Qed.

Lemma GetIntermedatorTx_missing id db :
  intermediate_tx db !! ToBytes id = None ->
  ToBytes id <> EmptyString ->
  (GetTx id db).1 = inl ErrNoSecondTx.
Proof.
  intros Hl Hne. unfold GetIntermedatorTx, View. cbn [fst].
  pose proof (Seek_bucket_spec (ToBytes id) (intermediate_tx db)) as Hs.
  rewrite Hl in Hs.
  destruct (Seek_bucket (ToBytes id) (intermediate_tx db)) as [kv|].
  - destruct (isTheSame kv.1 (ToBytes id)) eqn:Hsame; [|reflexivity].
    apply isTheSame_spec in Hsame. contradiction.
  - cbn [fst]. destruct (isTheSame EmptyString (ToBytes id)) eqn:Hsame; [|reflexivity].
    apply isTheSame_spec in Hsame. congruence.
Qed.

(** X2: [GetIntermedatorTx] is an exact lookup of the byte key of the id
    in the confirmed bucket: with an entry under that key it answers the
    decoded entry, or the decoding error; without one (the key not being
    empty) it answers the not-yet-available error, whatever greater keys
    the cursor lands on.  It runs in one read transaction and writes
    nothing. *)
Theorem GetIntermedatorTx_exact_lookup (id : ActivityID) (db : DB) :
  (forall v, intermediate_tx db !! ToBytes id = Some v ->
             (GetTx id db).1 = decoded v) /\
  (intermediate_tx db !! ToBytes id = None -> ToBytes id <> EmptyString ->
   (GetTx id db).1 = inl ErrNoSecondTx) /\
  (GetTx id db).2 =
    MkDB (intermediate_tx db) (pending_intermediate_tx db) (trade_history db)
         (S (TxN db)).
Proof.
  split; [intros v; apply GetIntermedatorTx_found|].
  split; [apply GetIntermedatorTx_missing|reflexivity].
Qed.

(** X3: when decoding undoes encoding, a promotion that returned nil is
    read back: [GetIntermedatorTx] of the id then answers the entry that
    was promoted. *)
Theorem StoreIntermediateTx_GetIntermedatorTx (id : ActivityID) (data : TXEntry)
    (db db' : DB) :
  TX_round_trip TXEntry marshalTX unmarshalTX ->
  PromoteTx' id data db = (None, db') ->
  (GetTx id db').1 = inr data.
Proof.
  intros Hrt Hp.
  destruct (StoreIntermediateTx_cases marshalTX marshalID ToBytes id data db)
    as [(dj & ij & Hd & Hid & Heq)|[e He]]; [|congruence].
  rewrite Heq in Hp. inversion Hp; subst db'.
  rewrite (GetIntermedatorTx_found id _ dj) by (cbn; apply lookup_insert_eq).
  unfold decode_entry. rewrite (Hrt _ _ Hd). reflexivity.
Qed.

Lemma pending_loop_encoded (l : list (string * string)) :
  ID_round_trip marshalID unmarshalID ->
  TX_round_trip TXEntry marshalTX unmarshalTX ->
  NoDup l.*1 ->
  (forall k v, (k, v) ∈ l ->
     (exists id, marshalID id = Some k) /\ (exists data, marshalTX data = Some v)) ->
  forall acc, exists result,
    pending_loop TXEntry unmarshalTX unmarshalID l acc = (result, None) /\
    forall id,
      result !! id =
      match marshalID id with
      | Some j =>
          match (list_to_map l : gmap string string) !! j with
          | Some v => unmarshalTX v
          | None => acc !! id
          end
      | None => acc !! id
      end.
Proof.
  intros Hid Htx. induction l as [|[k v] l IH]; intros Hnd Henc acc.
  - exists acc. split; [reflexivity|]. intros id. cbn.
    destruct (marshalID id); [rewrite lookup_empty|]; reflexivity.
  - inversion Hnd as [|? ? Hk Hnd']; subst.
    destruct (Henc k v ltac:(left)) as [[id0 Hid0] [d0 Hd0]].
    cbn [pending_loop]. rewrite (Hid _ _ Hid0), (Htx _ _ Hd0).
    destruct (IH Hnd' (fun k' v' H => Henc k' v' ltac:(right; exact H))
                 (<[id0 := d0]> acc)) as (result & Hres & Hlook).
    exists result. split; [exact Hres|]. intros id. rewrite Hlook.
    cbn [list_to_map foldr]. destruct (marshalID id) as [j|] eqn:Hj.
    + destruct (decide (j = k)) as [->|Hne].
      * assert (id = id0) by (apply Hid in Hj, Hid0; congruence). subst id.
        rewrite (proj1 (not_elem_of_list_to_map l k) ltac:(exact Hk)).
        cbn. rewrite !lookup_insert_eq. symmetry. apply Htx. exact Hd0.
      * cbn. rewrite (lookup_insert_ne _ k j) by congruence.
        destruct (list_to_map l !! j); [reflexivity|].
        apply lookup_insert_ne. intros ->. congruence.
    + apply lookup_insert_ne. intros ->. congruence.
Qed.

Lemma list_to_map_cursor_order (b : gmap string string) :
  (list_to_map (cursor_order b) : gmap string string) = b.
Proof.
  unfold cursor_order. rewrite <- (list_to_map_to_list b) at 2.
  apply list_to_map_proper.
  - rewrite merge_sort_Permutation. apply NoDup_fst_map_to_list.
  - apply merge_sort_Permutation.
Qed.

Lemma GetPendingIntermediateTXs_encoded db :
  ID_round_trip marshalID unmarshalID ->
  TX_round_trip TXEntry marshalTX unmarshalTX ->
  encoded db ->
  exists result,
    (ListPending db).1 = (result, None) /\
    forall id,
      result !! id =
      match marshalID id with
      | Some j => pending_intermediate_tx db !! j ≫= unmarshalTX
      | None => None
      end.
Proof.
  intros Hid Htx Henc. unfold GetPendingIntermediateTXs, View. cbn [fst].
  destruct (pending_loop_encoded (cursor_order (pending_intermediate_tx db))
              Hid Htx) with (acc := (∅ : gmap ActivityID TXEntry))
    as (result & Hres & Hlook).
  - unfold cursor_order. rewrite merge_sort_Permutation.
    apply NoDup_fst_map_to_list.
  - intros k v Hin. apply Henc. unfold cursor_order in Hin.
    rewrite merge_sort_Permutation in Hin. apply elem_of_map_to_list. exact Hin.
  - exists result. split; [exact Hres|]. intros id. rewrite Hlook.
    rewrite list_to_map_cursor_order.
    destruct (marshalID id) as [j|]; [|apply lookup_empty].
    destruct (pending_intermediate_tx db !! j); [reflexivity|apply lookup_empty].
Qed.

Lemma pending_encoded_db0 : encoded db0.
Proof. intros k v Hl. cbn in Hl. rewrite lookup_empty in Hl. discriminate. Qed.

Lemma pending_encoded_stage id data db :
  encoded db -> encoded (StageTx id data db).2.
Proof.
  intros Henc.
  destruct (StorePendingIntermediateTx_cases marshalTX marshalID id data db)
    as [(dj & ij & Hd & Hi & ->)|Hsame]; [|rewrite Hsame; exact Henc].
  intros k v Hl. cbn in Hl. apply lookup_insert_Some in Hl as [[<- <-]|[_ Hl]].
  - split; eauto.
  - apply (Henc k v Hl).
Qed.

Lemma pending_encoded_promote id data db :
  encoded db -> encoded (PromoteTx' id data db).2.
Proof.
  intros Henc.
  destruct (StoreIntermediateTx_cases marshalTX marshalID ToBytes id data db)
    as [(dj & ij & Hd & Hi & ->)|[e ->]]; [|exact Henc].
  intros k v Hl. cbn in Hl. apply lookup_delete_Some in Hl as [_ Hl].
  apply (Henc k v Hl).
Qed.

Lemma pending_encoded_run ops : forall db,
  encoded db -> encoded (run TXEntry marshalTX marshalID ToBytes ops db).
Proof.
  induction ops as [|o ops IH]; intros db Henc; [exact Henc|].
  cbn [run foldl]. apply IH. destruct o; cbn [step].
  - apply pending_encoded_stage. exact Henc.
  - apply pending_encoded_promote. exact Henc.
Qed.

(** X4: when decoding undoes encoding, then after any sequence of
    stagings and promotions on the fresh database
    [GetPendingIntermediateTXs] returns nil and lists under every id
    exactly the decoded entry that the pending bucket holds under the JSON
    key of that id, and nothing else. *)
Theorem GetPendingIntermediateTXs_lists_pending_bucket (ops : list (op TXEntry)) :
  ID_round_trip marshalID unmarshalID ->
  TX_round_trip TXEntry marshalTX unmarshalTX ->
  exists result,
    (ListPending (run TXEntry marshalTX marshalID ToBytes ops db0)).1
      = (result, None) /\
    forall id,
      result !! id =
      match marshalID id with
      | Some j =>
          pending_intermediate_tx
            (run TXEntry marshalTX marshalID ToBytes ops db0) !! j
          ≫= unmarshalTX
      | None => None
      end.
Proof.
  intros Hid Htx. apply GetPendingIntermediateTXs_encoded; try assumption.
  apply pending_encoded_run, pending_encoded_db0.
Qed.

(** X5: when decoding undoes encoding, of ids and of entries, then on a
    database whose pending bucket holds encodings a staging that encoded
    its entry and returned nil is listed: the id maps to the staged
    entry, replacing what was listed for it before, and every other id is
    listed as before. *)
Theorem StorePendingIntermediateTx_listed (id : ActivityID) (data : TXEntry)
    (db : DB) :
  ID_round_trip marshalID unmarshalID ->
  TX_round_trip TXEntry marshalTX unmarshalTX ->
  encoded db ->
  is_Some (marshalTX data) ->
  (StageTx id data db).1 = None ->
  exists before after,
    (ListPending db).1 = (before, None) /\
    (ListPending (StageTx id data db).2).1 = (after, None) /\
    after = <[id := data]> before.
Proof.
  intros Hid Htx Henc [dj Hd] Hnil.
  destruct (GetPendingIntermediateTXs_encoded db Hid Htx Henc)
    as (before & Hb & Hbl).
  destruct (GetPendingIntermediateTXs_encoded _ Hid Htx
              (pending_encoded_stage id data db Henc)) as (after & Ha & Hal).
  exists before, after. split; [exact Hb|]. split; [exact Ha|].
  assert (Hst : exists ij, marshalID id = Some ij /\
            pending_intermediate_tx (StageTx id data db).2
            = <[ij := dj]> (pending_intermediate_tx db)).
  { revert Hnil. unfold StorePendingIntermediateTx, Update. rewrite Hd.
    destruct (marshalID id) as [ij|]; [|discriminate].
    destruct (Put ij dj (pending_intermediate_tx db)) as [e|b] eqn:HPut;
      [discriminate|].
    apply Put_inr in HPut. subst b. intros _. exists ij. split; reflexivity. }
  destruct Hst as (ij & Hij & Hpend).
  apply map_eq. intros id'. rewrite Hal, Hpend.
  destruct (decide (id' = id)) as [->|Hne].
  - rewrite Hij, !lookup_insert_eq. cbn. apply Htx. exact Hd.
  - rewrite lookup_insert_ne by congruence. rewrite Hbl.
    destruct (marshalID id') as [j|] eqn:Hj; [|reflexivity].
    rewrite lookup_insert_ne; [reflexivity|].
    intros ->. apply Hne. apply Hid in Hj, Hij. congruence.
Qed.

(** X6: when decoding undoes encoding, of ids and of entries, then on a
    database whose pending bucket holds encodings, after a promotion that
    returned nil the id is no longer listed as pending, every other id is
    listed as before, and the promoted entry is read back from the
    confirmed bucket. *)
Theorem StoreIntermediateTx_unlisted (id : ActivityID) (data : TXEntry)
    (db db' : DB) :
  ID_round_trip marshalID unmarshalID ->
  TX_round_trip TXEntry marshalTX unmarshalTX ->
  encoded db ->
  PromoteTx' id data db = (None, db') ->
  exists before after,
    (ListPending db).1 = (before, None) /\
    (ListPending db').1 = (after, None) /\
    after = delete id before /\
    (GetTx id db').1 = inr data.
Proof.
  intros Hid Htx Henc Hp.
  assert (Henc' : encoded db').
  { pose proof (pending_encoded_promote id data db Henc) as H.
    rewrite Hp in H. exact H. }
  destruct (GetPendingIntermediateTXs_encoded db Hid Htx Henc)
    as (before & Hb & Hbl).
  destruct (GetPendingIntermediateTXs_encoded db' Hid Htx Henc')
    as (after & Ha & Hal).
  exists before, after. split; [exact Hb|]. split; [exact Ha|].
  destruct (StoreIntermediateTx_cases marshalTX marshalID ToBytes id data db)
    as [(dj & ij & Hd & Hij & Heq)|[e He]]; [|congruence].
  rewrite Heq in Hp. inversion Hp; subst db'. split.
  - apply map_eq. intros id'. rewrite Hal. cbn [pending_intermediate_tx].
    destruct (decide (id' = id)) as [->|Hne].
    + rewrite Hij, !lookup_delete_eq. reflexivity.
    + rewrite lookup_delete_ne by congruence. rewrite Hbl.
      destruct (marshalID id') as [j|] eqn:Hj; [|reflexivity].
      rewrite lookup_delete_ne; [reflexivity|].
      intros ->. apply Hne. apply Hid in Hj, Hij. congruence.
  - rewrite (GetIntermedatorTx_found id _ dj) by (cbn; apply lookup_insert_eq).
    unfold decode_entry. rewrite (Htx _ _ Hd). reflexivity.
Qed.

End BoltReadFacts.

Lemma unmarshal_marks_marks m : forall n c e,
  c = "+"%char \/ c = "-"%char ->
  Bolt.unmarshal_marks n (Bolt.marks m (String c e)) =
  Some (Common.MkActivityID
          (if Ascii.eqb c "+" then Z.of_nat (n + m) else - Z.of_nat (n + m)) e).
Proof.
  induction m as [|m IH]; intros n c e Hc.
  - rewrite Nat.add_0_r. destruct Hc as [-> | ->]; reflexivity.
  - cbn [Bolt.marks Bolt.unmarshal_marks]. cbn [Ascii.eqb Bool.eqb].
    rewrite (IH (S n) c e Hc). replace (S n + m)%nat with (n + S m)%nat by lia.
    reflexivity.
Qed.

Lemma id_text_round_trip :
  Bolt.ID_round_trip Bolt.marshal_id_text Bolt.unmarshal_id_text.
Proof.
  intros [tp e] j Hj. unfold Bolt.marshal_id_text in Hj. inversion Hj; subst j.
  unfold Bolt.unmarshal_id_text, Bolt.id_text. cbn [Common.Timepoint Common.EID].
  rewrite unmarshal_marks_marks
    by (unfold Bolt.sign_char; destruct (tp <? 0); auto).
  unfold Bolt.sign_char. cbn [Nat.add].
  destruct (Z.ltb_spec tp 0); cbn; f_equal; f_equal; lia.
Qed.

Lemma text_round_trip :
  Bolt.TX_round_trip string Bolt.marshal_text Bolt.unmarshal_text.
Proof.
  intros data j. unfold Bolt.marshal_text, Bolt.unmarshal_text.
  destruct (String.length data =? 0)%nat eqn:Hlen; [discriminate|].
  intros Heq. inversion Heq; subst j. rewrite Hlen. reflexivity.
Qed.

(** Promoting a deposit on the fresh database and reading it back. *)
Lemma StoreIntermediateTx_GetIntermedatorTx_witness :
  (Bolt.GetIntermedatorTx string Bolt.unmarshal_text Bolt.to_bytes_text Bolt.dep1
     (Bolt.StoreIntermediateTx string Bolt.marshal_text Bolt.marshal_id_text
        Bolt.to_bytes_text Bolt.dep1 "tx-1"%string Bolt.db0).2).1
  = inr "tx-1"%string.
Proof.
  apply (StoreIntermediateTx_GetIntermedatorTx Bolt.marshal_text Bolt.unmarshal_text
           Bolt.marshal_id_text Bolt.to_bytes_text Bolt.dep1 "tx-1"%string Bolt.db0).
  - exact text_round_trip.
  - vm_compute. reflexivity.
Defined.

(** The listing after staging two deposits and promoting the first. *)
Lemma GetPendingIntermediateTXs_lists_pending_bucket_witness :
  exists result,
    (Bolt.GetPendingIntermediateTXs string Bolt.unmarshal_text Bolt.unmarshal_id_text
       (Bolt.run string Bolt.marshal_text Bolt.marshal_id_text Bolt.to_bytes_text
          Bolt.two_deposits Bolt.db0)).1 = (result, None) /\
    result !! Bolt.dep1 = None /\ result !! Bolt.dep2 = Some "tx-2"%string.
Proof.
  destruct (GetPendingIntermediateTXs_lists_pending_bucket
              Bolt.marshal_text Bolt.unmarshal_text Bolt.marshal_id_text
              Bolt.unmarshal_id_text Bolt.to_bytes_text Bolt.two_deposits
              id_text_round_trip text_round_trip) as (result & Hres & Hlook).
  exists result. split; [exact Hres|].
  split; rewrite Hlook; vm_compute; reflexivity.
Defined.

(** Staging the first of two staged deposits again, with another entry:
    the new entry replaces the old one in the listing and the second
    deposit is listed as before. *)
Lemma StorePendingIntermediateTx_listed_witness :
  exists before after,
    (Bolt.GetPendingIntermediateTXs string Bolt.unmarshal_text Bolt.unmarshal_id_text
       (Bolt.run string Bolt.marshal_text Bolt.marshal_id_text Bolt.to_bytes_text
          Bolt.both_staged Bolt.db0)).1 = (before, None) /\
    (Bolt.GetPendingIntermediateTXs string Bolt.unmarshal_text Bolt.unmarshal_id_text
       (Bolt.StorePendingIntermediateTx string Bolt.marshal_text Bolt.marshal_id_text
          Bolt.dep1 "tx-1b"%string
          (Bolt.run string Bolt.marshal_text Bolt.marshal_id_text Bolt.to_bytes_text
             Bolt.both_staged Bolt.db0)).2).1 = (after, None) /\
    after = <[Bolt.dep1 := "tx-1b"%string]> before /\
    before !! Bolt.dep1 = Some "tx-1"%string /\
    before !! Bolt.dep2 = Some "tx-2"%string.
Proof.
  assert (Henc : Bolt.pending_encoded string Bolt.marshal_text Bolt.marshal_id_text
                   (Bolt.run string Bolt.marshal_text Bolt.marshal_id_text
                      Bolt.to_bytes_text Bolt.both_staged Bolt.db0))
    by apply pending_encoded_run, pending_encoded_db0.
  destruct (StorePendingIntermediateTx_listed Bolt.marshal_text Bolt.unmarshal_text
              Bolt.marshal_id_text Bolt.unmarshal_id_text Bolt.dep1 "tx-1b"%string
              _ id_text_round_trip text_round_trip Henc
              (ex_intro _ "tx-1b"%string eq_refl) eq_refl)
    as (before & after & Hb & Ha & Heq).
  destruct (GetPendingIntermediateTXs_encoded Bolt.marshal_text Bolt.unmarshal_text
              Bolt.marshal_id_text Bolt.unmarshal_id_text _
              id_text_round_trip text_round_trip Henc)
    as (before' & Hb' & Hlook).
  assert (before' = before) by congruence. subst before'.
  exists before, after. split; [exact Hb|]. split; [exact Ha|].
  split; [exact Heq|].
  split; rewrite Hlook; vm_compute; reflexivity.
Defined.

(** Promoting a staged deposit. *)
Lemma StoreIntermediateTx_unlisted_witness :
  exists before after,
    (Bolt.GetPendingIntermediateTXs string Bolt.unmarshal_text Bolt.unmarshal_id_text
       (Bolt.StorePendingIntermediateTx string Bolt.marshal_text Bolt.marshal_id_text
          Bolt.dep1 "tx-1"%string Bolt.db0).2).1 = (before, None) /\
    (Bolt.GetPendingIntermediateTXs string Bolt.unmarshal_text Bolt.unmarshal_id_text
       (Bolt.run string Bolt.marshal_text Bolt.marshal_id_text Bolt.to_bytes_text
          [Bolt.StorePending Bolt.dep1 "tx-1"%string;
           Bolt.Promote Bolt.dep1 "tx-1"%string] Bolt.db0)).1 = (after, None) /\
    after = delete Bolt.dep1 before /\
    (Bolt.GetIntermedatorTx string Bolt.unmarshal_text Bolt.to_bytes_text Bolt.dep1
       (Bolt.run string Bolt.marshal_text Bolt.marshal_id_text Bolt.to_bytes_text
          [Bolt.StorePending Bolt.dep1 "tx-1"%string;
           Bolt.Promote Bolt.dep1 "tx-1"%string] Bolt.db0)).1 = inr "tx-1"%string.
Proof.
  apply (StoreIntermediateTx_unlisted Bolt.marshal_text Bolt.unmarshal_text
           Bolt.marshal_id_text Bolt.unmarshal_id_text Bolt.to_bytes_text
           Bolt.dep1 "tx-1"%string _ _ id_text_round_trip text_round_trip).
  - apply pending_encoded_stage, pending_encoded_db0.
  - vm_compute. reflexivity.
Defined.

(** ** Rebroadcaster: every node once, in any order *)

Section RebroadcasterOrderFacts.

Import Blockchain.

Context {Client Tx Err : Type}.
Variable SendTransaction : Client -> Tx -> option Err.

Lemma calls_app id tr1 tr2 : calls id (tr1 ++ tr2) = (calls id tr1 + calls id tr2)%nat.
Proof.
  induction tr1 as [|e tr1 IH]; [reflexivity|].
  destruct e; cbn [app calls]; try exact IH.
  destruct (String.eqb id id0); [rewrite IH|]; reflexivity || exact IH.
Qed.

Lemma calls_block id tx kv :
  calls id (block SendTransaction tx kv) = if String.eqb id kv.1 then 1%nat else 0%nat.
Proof.
  unfold block. destruct (SendTransaction kv.2 tx); cbn;
    destruct (String.eqb id kv.1); reflexivity.
Qed.

Lemma calls_cancels id (l : list (string * Client)) :
  calls id (map (fun kv => Cancel kv.1) l) = 0%nat.
Proof. induction l as [|kv l IH]; [reflexivity|exact IH]. Qed.

Lemma calls_blocks id tx (l : list (string * Client)) :
  NoDup l.*1 ->
  calls id (concat (map (block SendTransaction tx) l)) =
  if decide (id ∈ l.*1) then 1%nat else 0%nat.
Proof.
  induction l as [|kv l IH]; intros Hnd.
  - cbn. destruct (decide (id ∈ [])) as [Hin|_]; [inversion Hin|reflexivity].
  - inversion Hnd as [|? ? Hk Hnd']; subst. cbn [map concat].
    rewrite calls_app, calls_block, (IH Hnd'). cbn [fmap list_fmap].
    destruct (String.eqb_spec id kv.1) as [->|Hne].
    + destruct (decide (kv.1 ∈ l.*1)) as [Hin|_]; [contradiction|].
      destruct (decide (kv.1 ∈ kv.1 :: l.*1)) as [_|Hno]; [reflexivity|].
      exfalso. apply Hno. left.
    + destruct (decide (id ∈ l.*1)) as [Hin|Hno];
        destruct (decide (id ∈ kv.1 :: l.*1)) as [Hin'|Hno']; try reflexivity.
      * exfalso. apply Hno'. right. exact Hin.
      * exfalso. apply elem_of_cons in Hin' as [?|?]; contradiction.
Qed.

(** X7: in one call of [Broadcast], [SendTransaction] is called exactly
    once for every node of the client map and never for any other id. *)
Theorem Broadcast_calls_every_node_once (clients : gmap string Client) (tx : Tx)
    (id : string) :
  calls id (Broadcast_trace SendTransaction clients tx) =
  if decide (is_Some (clients !! id)) then 1%nat else 0%nat.
Proof.
  unfold Broadcast_trace, Broadcast_loop, Broadcast_loop_in, frame0.
  rewrite foldl_loop_body_frame. cbn [trace deferred app].
  rewrite app_nil_r, calls_app. cbn [calls].
  rewrite <- map_rev, calls_cancels, Nat.add_0_r.
  rewrite calls_blocks by apply NoDup_fst_map_to_list.
  destruct (decide (id ∈ (map_to_list clients).*1)) as [Hin|Hno];
    destruct (decide (is_Some (clients !! id))) as [Hs|Hn]; try reflexivity.
  - exfalso. apply Hn. apply list_elem_of_fmap in Hin as ([k c] & -> & Hin).
    apply elem_of_map_to_list in Hin. eauto.
  - exfalso. apply Hno. destruct Hs as [c Hc].
    apply list_elem_of_fmap. exists (id, c). split; [reflexivity|].
    apply elem_of_map_to_list. exact Hc.
Qed.

(** X8: the order in which the range visits the client map does not
    matter: for every order of its entries the failures collected are
    those of the order of the model, the wait group is back at zero at
    the wait, and no two submissions are outstanding at any point. *)
Theorem Broadcast_range_order_irrelevant (clients : gmap string Client) (tx : Tx)
    (order : list (string * Client)) :
  order ≡ₚ map_to_list clients ->
  failures (Broadcast_loop_in SendTransaction order tx)
    = failures (Broadcast_loop SendTransaction clients tx) /\
  wg (Broadcast_loop_in SendTransaction order tx) = 0%nat /\
  (max_in_flight (trace (Broadcast_loop_in SendTransaction order tx)) <= 1)%nat.
Proof.
  intros Hperm. split.
  - rewrite (Broadcast_loop_in_failures SendTransaction clients tx order Hperm).
    symmetry. apply Broadcast_loop_failures.
  - apply Broadcast_loop_in_sequential.
Qed.

End RebroadcasterOrderFacts.

(** Three nodes visited in the reverse order. *)
Lemma Broadcast_range_order_irrelevant_witness :
  Blockchain.failures
    (Blockchain.Broadcast_loop_in Blockchain.send_bool
       (reverse (map_to_list (Blockchain.nodes true false false))) tt)
  = Blockchain.failures
      (Blockchain.Broadcast_loop Blockchain.send_bool
         (Blockchain.nodes true false false) tt).
Proof.
  apply (Broadcast_range_order_irrelevant Blockchain.send_bool
           (Blockchain.nodes true false false) tt
           (reverse (map_to_list (Blockchain.nodes true false false)))).
  apply reverse_Permutation.
Defined.

(** ** Bolt storage: the upper end of a trade window *)

Lemma bytes_le_app_false s t :
  t <> EmptyString -> Common.bytes_le (s ++ t) s = false.
Proof.
  intros Ht. unfold Common.bytes_le.
  assert (Hgt : String.compare (s ++ t) s = Gt).
  { induction s as [|c s IH].
    - destruct t; [congruence|reflexivity].
    - change (String.compare (String c (s ++ t)) (String c s) = Gt).
      cbn [String.compare]. unfold Ascii.compare. rewrite N.compare_refl.
      exact IH. }
  rewrite Hgt. reflexivity.
Qed.

(** X9: a trade stored under the key of a timestamp equal to [toTime]
    followed by a non-empty id lies above the upper end of the scan: a
    pair bucket that holds only such a trade yields the empty list for
    the pair. *)
Theorem GetTradeHistory_excludes_trade_at_toTime {TradeHistory : Type}
    (unmarshalTrade : string -> option TradeHistory)
    (BytesToUint64 : string -> Z)
    (fromTime toTime : Z) (pair ID history : string) (db : Bolt.DB) :
  ID <> EmptyString ->
  Common.sub64 toTime fromTime <= Bolt.maxGetTradeHistory ->
  Bolt.trade_history db =
    [(pair, Bolt.SubBucket [((Common.FormatUint toTime ++ ID)%string, history)])] ->
  (Bolt.GetTradeHistory TradeHistory unmarshalTrade BytesToUint64
     fromTime toTime db).1
  = (<[BytesToUint64 pair := []]> ∅, None).
Proof.
  intros HID Hw Hth. unfold Bolt.GetTradeHistory.
  assert (Hle : (Bolt.maxGetTradeHistory <? Common.sub64 toTime fromTime) = false)
    by (apply Z.ltb_ge; exact Hw).
  rewrite Hle. unfold Bolt.View. cbn [fst]. rewrite Hth.
  cbn [Bolt.scan_pairs Bolt.Seek].
  destruct (Common.bytes_le (Common.FormatUint fromTime)
              (Common.FormatUint toTime ++ ID)); cbn [Bolt.scan_pair];
    [rewrite (bytes_le_app_false _ _ HID)|]; reflexivity.
Qed.

(** The window from 1500 to 2500 and a trade at 2500 with the id [x]. *)
Lemma GetTradeHistory_excludes_trade_at_toTime_witness :
  (Bolt.GetTradeHistory string Bolt.trade_text Bolt.pair_key 1500 2500
     (Bolt.MkDB ∅ ∅ [("p", Bolt.SubBucket [("2500x", "t")])]%string 0)).1
  = (<[1 := []]> ∅, None).
Proof.
  apply (GetTradeHistory_excludes_trade_at_toTime Bolt.trade_text Bolt.pair_key
           1500 2500 "p" "x" "t"
           (Bolt.MkDB ∅ ∅ [("p", Bolt.SubBucket [("2500x", "t")])]%string 0)).
  - discriminate.
  - vm_compute. discriminate.
  - reflexivity.
Defined.

(** ** Postgres storage: storing and reading fetched data *)

Section FetchDataReadFacts.

Import Common Postgres.

Variable MillisToTime : Z -> Z.
Context {Data : Type}.
Variable marshalData : Data -> option string.
Variable unmarshalData : fetchDataType -> string -> option Data.
Variable getDataType : Data -> fetchDataType.

Abbreviation Store_ := (storeFetchData MillisToTime Data marshalData getDataType).

Lemma order_by_created_desc_limit_1_last (l : list fetch_data_row) r :
  (forall r', In r' l -> fd_created r' < fd_created r) ->
  order_by_created_desc_limit_1 (l ++ [r]) = Some r.
Proof.
  induction l as [|x l IH]; intros Hlt; [reflexivity|].
  cbn [app order_by_created_desc_limit_1].
  rewrite IH by (intros r' Hr'; apply Hlt; right; exact Hr').
  specialize (Hlt x ltac:(left; reflexivity)).
  destruct (Z.leb_spec (fd_created r) (fd_created x)); [lia|reflexivity].
Qed.

Lemma filter_nil_forall {A} (f : A -> bool) (l : list A) :
  (forall x, In x l -> f x = false) -> List.filter f l = [].
Proof.
  induction l as [|x l IH]; intros H; [reflexivity|]. cbn.
  rewrite (H x ltac:(left; reflexivity)). apply IH. intros y Hy. apply H.
  right. exact Hy.
Qed.

(** X10: on a table whose ids are below the sequence, storing data that
    encodes, at a time after every row of its kind, returns nil; the
    version at that time or at any later time is then the id just given
    out, and reading that version back decodes the data that was stored
    (decoding being the inverse of encoding on it). *)
Theorem storeFetchData_read_back (data : Data) (j : string)
    (timepoint timepoint' : Z) (db : DB) :
  fetch_data_ids_fresh db ->
  marshalData data = Some j ->
  unmarshalData (getDataType data) j = Some data ->
  (forall r, r ∈ fetch_data db -> fd_type r = getDataType data ->
             fd_created r < MillisToTime timepoint) ->
  MillisToTime timepoint <= MillisToTime timepoint' ->
  exists db',
    Store_ data timepoint db = (None, db') /\
    currentVersion MillisToTime (getDataType data) timepoint' db'
      = inr (fetch_data_id_seq db) /\
    getData Data unmarshalData (getDataType data) (fetch_data_id_seq db) db'
      = inr data.
Proof.
  intros Hfresh Hm Hrt Hlate Hle. unfold storeFetchData. rewrite Hm.
  eexists. split; [reflexivity|]. split.
  - unfold currentVersion. cbn [fetch_data]. rewrite List.filter_app.
    cbn [List.filter fd_created fd_type].
    rewrite (proj2 (Z.leb_le _ _) Hle), bool_decide_eq_true_2 by reflexivity.
    cbn [andb]. rewrite order_by_created_desc_limit_1_last; [reflexivity|].
    intros r' Hr'. apply filter_In in Hr' as [Hin Hsc].
    apply andb_true_iff in Hsc as [_ Hty]. apply bool_decide_eq_true in Hty.
    cbn [fd_created]. apply Hlate; [apply list_elem_of_In; exact Hin|exact Hty].
  - unfold getData. cbn [fetch_data]. rewrite List.filter_app.
    rewrite filter_nil_forall.
    + cbn [app List.filter fd_id fd_type]. rewrite Z.eqb_refl.
      rewrite bool_decide_eq_true_2 by reflexivity. cbn [andb fd_data].
      rewrite Hrt. reflexivity.
    + intros r Hr. unfold fetch_data_ids_fresh in Hfresh.
      rewrite Forall_forall in Hfresh.
      specialize (Hfresh r ltac:(apply list_elem_of_In; exact Hr)).
      destruct (Z.eqb_spec (fd_id r) (fetch_data_id_seq db)); [lia|reflexivity].
Qed.

Lemma ids_in_order_store data timepoint db :
  ids_in_order db -> ids_in_order (Store_ data timepoint db).2.
Proof.
  intros [Hids Hseq]. unfold ids_in_order, storeFetchData.
  destruct (marshalData data) as [j|]; [|split; assumption].
  cbn [snd fetch_data fetch_data_id_seq]. split.
  - rewrite List.map_app, List.length_app, Hids. cbn [map length fd_id].
    rewrite Nat.add_1_r, List.seq_S, List.map_app. cbn [map]. rewrite Hseq.
    do 2 f_equal. lia.
  - rewrite List.length_app. cbn [length]. lia.
Qed.

Lemma ids_in_order_store_all inputs : forall db,
  ids_in_order db ->
  ids_in_order (store_all MillisToTime Data marshalData getDataType inputs db).
Proof.
  induction inputs as [|i inputs IH]; intros db H; [exact H|].
  cbn [store_all foldl]. apply IH, ids_in_order_store, H.
Qed.

Lemma store_all_activity inputs : forall db,
  activity (store_all MillisToTime Data marshalData getDataType inputs db)
    = activity db /\
  (length (fetch_data (store_all MillisToTime Data marshalData getDataType inputs db))
   <= length (fetch_data db) + length inputs)%nat.
Proof.
  induction inputs as [|i inputs IH]; intros db; [cbn; split; [reflexivity|lia]|].
  cbn [store_all foldl]. destruct (IH (Store_ i.1 i.2 db).2) as [Ha Hl].
  fold (store_all MillisToTime Data marshalData getDataType inputs
          (Store_ i.1 i.2 db).2) in *.
  rewrite Ha. unfold storeFetchData in *.
  destruct (marshalData i.1); cbn [snd activity fetch_data] in *.
  - split; [reflexivity|]. rewrite List.length_app in Hl. cbn [length] in *. lia.
  - split; [reflexivity|]. cbn [length]. lia.
Qed.

(** X11: after any sequence of [storeFetchData] calls on the fresh
    database the ids of the rows are 1, 2, 3, ... in the order of
    insertion, one per call that did not fail, the sequence stands at the
    next id, and the activity table is still empty. *)
Theorem storeFetchData_ids_in_insertion_order (inputs : list (Data * Z)) :
  map fd_id
      (fetch_data (store_all MillisToTime Data marshalData getDataType inputs db0))
    = map Z.of_nat
        (seq 1 (length (fetch_data
                  (store_all MillisToTime Data marshalData getDataType inputs db0)))) /\
  fetch_data_id_seq (store_all MillisToTime Data marshalData getDataType inputs db0)
    = 1 + Z.of_nat
            (length (fetch_data
               (store_all MillisToTime Data marshalData getDataType inputs db0))) /\
  (length (fetch_data (store_all MillisToTime Data marshalData getDataType inputs db0))
   <= length inputs)%nat /\
  activity (store_all MillisToTime Data marshalData getDataType inputs db0) = [].
Proof.
  destruct (ids_in_order_store_all inputs db0) as [Hids Hseq];
    [split; reflexivity|].
  destruct (store_all_activity inputs db0) as [Ha Hl].
  repeat split; try assumption.
Qed.

End FetchDataReadFacts.

(** ** Postgres storage: the order of the rows of a query *)

Lemma arrange_nil {A} (order : Postgres.row_order A) :
  Postgres.arrange order [] = [].
Proof. apply Permutation_nil_r, Postgres.arrange_perm. Qed.

Lemma arrange_singleton {A} (order : Postgres.row_order A) (r : A) :
  Postgres.arrange order [r] = [r].
Proof. apply Permutation_singleton_r, Postgres.arrange_perm. Qed.

Lemma arrange_elem_of {A} (order : Postgres.row_order A) (rows : list A) (r : A) :
  r ∈ Postgres.arrange order rows <-> r ∈ rows.
Proof. rewrite (Postgres.arrange_perm order rows). reflexivity. Qed.

Lemma arrange_length {A} (order : Postgres.row_order A) (rows : list A) :
  length (Postgres.arrange order rows) = length rows.
Proof. apply Permutation_length, Postgres.arrange_perm. Qed.

(** Decoding a rearranged list gives the rearranged result, or fails as
    well. *)
Lemma mapM_Permutation_Some {A B} (f : A -> option B) (l l' : list A)
    (k : list B) :
  l ≡ₚ l' -> mapM f l = Some k ->
  exists k', mapM f l' = Some k' /\ k' ≡ₚ k.
Proof.
  intros Hperm Hk. apply mapM_Some in Hk.
  destruct (Permutation_Forall2 Hperm Hk) as (k' & Hkk' & HF).
  exists k'. split; [apply mapM_Some; exact HF|symmetry; exact Hkk'].
Qed.

Lemma mapM_Permutation_None {A B} (f : A -> option B) (l l' : list A) :
  l ≡ₚ l' -> mapM f l = None -> mapM f l' = None.
Proof.
  intros Hperm Hn. apply mapM_None in Hn. apply mapM_None.
  apply Exists_exists in Hn as (x & Hx & Hfx). apply Exists_exists.
  exists x. split; [rewrite <- Hperm; exact Hx|exact Hfx].
Qed.

(** ** Postgres storage: expired auth data *)

Section ExpiredFacts.

Import Common Postgres.

Variable MillisToTime : Z -> Z.
Variable authDataExpiredDuration : Z.

Abbreviation Prune_ := (PruneExpiredAuthData MillisToTime authDataExpiredDuration).
Abbreviation Export_ := (ExportExpiredAuthData MillisToTime authDataExpiredDuration).
Abbreviation expired_ := (expired MillisToTime authDataExpiredDuration).

Lemma filter_length_partition {A} (f : A -> bool) (l : list A) :
  length l = (length (List.filter f l)
              + length (List.filter (fun x => negb (f x)) l))%nat.
Proof.
  induction l as [|x l IH]; [reflexivity|]. cbn.
  destruct (f x); cbn; lia.
Qed.

Lemma filter_filter_negb {A} (f : A -> bool) (l : list A) :
  List.filter f (List.filter (fun x => negb (f x)) l) = [] /\
  List.filter (fun x => negb (f x)) (List.filter (fun x => negb (f x)) l)
    = List.filter (fun x => negb (f x)) l.
Proof.
  induction l as [|x l [IH1 IH2]]; [split; reflexivity|]. cbn.
  destruct (f x) eqn:Hf; cbn; [split; assumption|].
  rewrite Hf. cbn. split; [assumption|f_equal; assumption].
Qed.

(** X12: [PruneExpiredAuthData] returns nil and the number of rows it
    deleted; it deletes exactly the auth rows created before the cutoff,
    keeping every row of another kind and every auth row created at or
    after the cutoff in its place; the activity table and the sequences
    are untouched; and a second pruning at the same timepoint deletes
    nothing. *)
Theorem PruneExpiredAuthData_deletes_expired (timepoint : Z) (db : DB) :
  (Prune_ timepoint db).1
    = (Z.of_nat (length (fetch_data db))
       - Z.of_nat (length (fetch_data (Prune_ timepoint db).2)), None) /\
  (forall r, r ∈ fetch_data (Prune_ timepoint db).2 <->
             r ∈ fetch_data db /\
             ~ (fd_type r = authDataType /\
                fd_created r
                < MillisToTime (sub64 timepoint authDataExpiredDuration))) /\
  activity (Prune_ timepoint db).2 = activity db /\
  fetch_data_id_seq (Prune_ timepoint db).2 = fetch_data_id_seq db /\
  activity_id_seq (Prune_ timepoint db).2 = activity_id_seq db /\
  Prune_ timepoint (Prune_ timepoint db).2 = ((0, None), (Prune_ timepoint db).2).
Proof.
  unfold PruneExpiredAuthData. cbn [fst snd fetch_data activity
    fetch_data_id_seq activity_id_seq].
  split; [|split; [|repeat split]].
  - f_equal. rewrite (filter_length_partition (expired_ timepoint) (fetch_data db)).
    lia.
  - intros r. rewrite !list_elem_of_In, filter_In. unfold expired.
    rewrite negb_true_iff, andb_false_iff, bool_decide_eq_false, Z.ltb_ge.
    split; intros [Hin H]; (split; [exact Hin|]).
    + intros [Ht Hc]. destruct H; [contradiction|lia].
    + destruct (decide (fd_type r = authDataType)) as [Ht|Ht]; [|left; exact Ht].
      right. destruct (Z.lt_ge_cases (fd_created r)
                         (MillisToTime (sub64 timepoint authDataExpiredDuration)));
        [exfalso; apply H; split; assumption|lia].
  - destruct (filter_filter_negb (expired_ timepoint) (fetch_data db)) as [H1 H2].
    rewrite H1, H2. reflexivity.
Qed.

Lemma export_rows_no_faults rows : forall count w,
  export_rows rows count (MkFile w [])
  = ((count + Z.of_nat (length rows), None),
     MkFile (w ++ flat_map (fun r => [fd_data r; String "010"%char EmptyString]) rows)
            []).
Proof.
  induction rows as [|r rows IH]; intros count w.
  - cbn. rewrite Z.add_0_r, app_nil_r. reflexivity.
  - cbn [export_rows Write faults written]. rewrite IH.
    cbn [flat_map length]. rewrite <- !app_assoc. cbn [app].
    f_equal. f_equal. lia.
Qed.

(** X13: on a file on which no write fails, [ExportExpiredAuthData]
    returns nil and the number of rows that [PruneExpiredAuthData] would
    delete at the same timepoint, and has appended the data of each of
    those rows once, each followed by a newline, in the order in which
    the query yielded the rows, whichever that is. *)
Theorem ExportExpiredAuthData_matches_prune (order : row_order fetch_data_row)
    (timepoint : Z) (outFile : File) (db : DB) :
  faults outFile = [] ->
  exists rows,
    rows ≡ₚ List.filter (expired_ timepoint) (fetch_data db) /\
    Export_ order timepoint (Some outFile) db
    = (((Prune_ timepoint db).1.1, None),
       Some (MkFile
               (written outFile
                ++ flat_map (fun r => [fd_data r; String "010"%char EmptyString])
                            rows)
               [])).
Proof.
  intros Hf. destruct outFile as [w f]. cbn in Hf. subst f.
  exists (arrange order (List.filter (expired_ timepoint) (fetch_data db))).
  split; [apply arrange_perm|].
  unfold ExportExpiredAuthData, PruneExpiredAuthData.
  rewrite export_rows_no_faults, arrange_length. reflexivity.
Qed.

Lemma export_rows_error rows : forall count outFile,
  (export_rows rows count outFile).1.2 <> None ->
  (export_rows rows count outFile).1.1 = 0.
Proof.
  induction rows as [|r rows IH]; intros count outFile; cbn [export_rows].
  - cbn. congruence.
  - destruct (Write (fd_data r) outFile) as [e1 f1].
    destruct (Write _ f1) as [[e|] f2]; [reflexivity|]. apply IH.
Qed.

(** X14: whenever [ExportExpiredAuthData] returns an error, the count it
    returns is 0, however many rows were written before the failure. *)
Theorem ExportExpiredAuthData_error_count (order : row_order fetch_data_row)
    (timepoint : Z) (created : option File) (db : DB) :
  (Export_ order timepoint created db).1.2 <> None ->
  (Export_ order timepoint created db).1.1 = 0.
Proof.
  unfold ExportExpiredAuthData. destruct created as [outFile|]; [|reflexivity].
  pose proof (export_rows_error
                (arrange order (List.filter (expired_ timepoint) (fetch_data db)))
                0 outFile) as H.
  destruct (export_rows _ 0 outFile) as [r f]. exact H.
Qed.

(** X15: for a timepoint below the retention the cutoff wraps around: it
    is the time of [2^64 - (retention - timepoint)], and the pruning
    deletes every auth row created before that time. *)
Theorem PruneExpiredAuthData_cutoff_wraps (timepoint : Z) (db : DB) :
  is_uint64 timepoint -> is_uint64 authDataExpiredDuration ->
  timepoint < authDataExpiredDuration ->
  sub64 timepoint authDataExpiredDuration
    = 2 ^ 64 - (authDataExpiredDuration - timepoint) /\
  fetch_data (Prune_ timepoint db).2
  = List.filter
      (fun r => negb (bool_decide (fd_type r = authDataType)
                      && (fd_created r
                          <? MillisToTime
                               (2 ^ 64 - (authDataExpiredDuration - timepoint)))))
      (fetch_data db).
Proof.
  unfold is_uint64. intros Ht Hd Hlt.
  assert (Hsub : sub64 timepoint authDataExpiredDuration
                 = 2 ^ 64 - (authDataExpiredDuration - timepoint)).
  { unfold sub64.
    replace (timepoint - authDataExpiredDuration)
      with (2 ^ 64 - (authDataExpiredDuration - timepoint) + (-1) * 2 ^ 64) by lia.
    rewrite Z.mod_add by lia. apply Z.mod_small. lia. }
  split; [exact Hsub|]. unfold PruneExpiredAuthData, expired. cbn [snd fetch_data].
  rewrite Hsub. reflexivity.
Qed.

End ExpiredFacts.

(** Pruning at time 50 with a retention of 100 ms deletes the auth
    snapshot of time 10. *)
Lemma PruneExpiredAuthData_cutoff_wraps_witness :
  Postgres.fetch_data
    (Postgres.PruneExpiredAuthData Postgres.millis 100 50 Postgres.one_auth).2 = [].
Proof.
  rewrite (proj2 (PruneExpiredAuthData_cutoff_wraps Postgres.millis 100 50
                    Postgres.one_auth ltac:(unfold Common.is_uint64; lia)
                    ltac:(unfold Common.is_uint64; lia) ltac:(lia))).
  vm_compute. reflexivity.
Defined.

(** Exporting two expired auth snapshots to an empty file, the query
    yielding the later one first. *)
Lemma ExportExpiredAuthData_matches_prune_witness :
  exists rows,
    rows ≡ₚ [Postgres.FetchDataRow 1 10 "a1" Postgres.authDataType;
              Postgres.FetchDataRow 2 20 "a2" Postgres.authDataType] /\
    Postgres.ExportExpiredAuthData Postgres.millis 100
      (Postgres.reverse_order Postgres.fetch_data_row) 1000
      (Some (Postgres.MkFile [] [])) Postgres.two_auth
    = ((2, None),
       Some (Postgres.MkFile
               (flat_map (fun r => [Postgres.fd_data r;
                                    String "010"%char EmptyString]) rows) [])) /\
    Postgres.ExportExpiredAuthData Postgres.millis 100
      (Postgres.reverse_order Postgres.fetch_data_row) 1000
      (Some (Postgres.MkFile [] [])) Postgres.two_auth
    = ((2, None),
       Some (Postgres.MkFile
               ["a2"%string; String "010"%char EmptyString;
                "a1"%string; String "010"%char EmptyString] [])).
Proof.
  destruct (ExportExpiredAuthData_matches_prune Postgres.millis 100
              (Postgres.reverse_order Postgres.fetch_data_row) 1000
              (Postgres.MkFile [] []) Postgres.two_auth eq_refl)
    as (rows & Hperm & Heq).
  exists rows. split; [exact Hperm|]. split; [exact Heq|].
  vm_compute. reflexivity.
Defined.

(** An export of two snapshots whose second newline cannot be written:
    the error comes back with the count 0, after one row was written. *)
Lemma ExportExpiredAuthData_error_count_witness :
  (Postgres.ExportExpiredAuthData Postgres.millis 100
     (Postgres.reverse_order Postgres.fetch_data_row) 1000
     (Some (Postgres.MkFile [] [false; false; false; true]))
     Postgres.two_auth).1.2 = Some Postgres.ErrWrite /\
  (Postgres.ExportExpiredAuthData Postgres.millis 100
     (Postgres.reverse_order Postgres.fetch_data_row) 1000
     (Some (Postgres.MkFile [] [false; false; false; true]))
     Postgres.two_auth).1.1 = 0.
Proof.
  split; [vm_compute; reflexivity|].
  apply (ExportExpiredAuthData_error_count Postgres.millis 100
           (Postgres.reverse_order Postgres.fetch_data_row) 1000
           (Some (Postgres.MkFile [] [false; false; false; true]))
           Postgres.two_auth).
  vm_compute. discriminate.
Defined.

(** ** Postgres storage: reading the activity ledger *)


Lemma has_id_refl id a c p d :
  Postgres.has_id id
    (Postgres.ActivityRow a (Common.Timepoint id) (Common.EID id) c p d) = true.
Proof. unfold Postgres.has_id. cbn. rewrite Z.eqb_refl, String.eqb_refl. reflexivity. Qed.

Section ActivityReadFacts.

Import Common Postgres.

Context {ActivityRecord : Type}.
Variable marshalActivity : ActivityRecord -> option string.
Variable unmarshalActivity : string -> option ActivityRecord.
Variable IsPending : ActivityRecord -> bool.

Abbreviation Upd_ := (UpdateActivity ActivityRecord marshalActivity IsPending).
Abbreviation Get_ := (GetActivity ActivityRecord unmarshalActivity).
Abbreviation Pending_ := (GetPendingActivities ActivityRecord unmarshalActivity).
Abbreviation decode_ := (decode_activities ActivityRecord unmarshalActivity).

(** The row that [GetActivity] decodes is one of the rows of the id. *)
Lemma GetActivity_some_row order id db :
  List.filter (has_id id) (activity db) <> [] ->
  exists r, r ∈ List.filter (has_id id) (activity db) /\
    Get_ order id db = match unmarshalActivity (act_data r) with
                       | Some activityRecord => inr activityRecord
                       | None => inl ErrUnmarshal
                       end.
Proof.
  intros Hne. unfold GetActivity.
  destruct (arrange order (List.filter (has_id id) (activity db)))
    as [|r rest] eqn:Ha.
  - exfalso. apply Hne. apply Permutation_nil_r. rewrite <- Ha.
    symmetry. apply arrange_perm.
  - exists r. split; [|reflexivity].
    apply (arrange_elem_of order). rewrite Ha. left.
Qed.



Lemma filter_pending_update id data rows :
  List.filter act_is_pending (update_activity false data id rows)
  = List.filter (fun r => act_is_pending r && negb (has_id id r)) rows.
Proof.
  unfold update_activity.
  induction rows as [|r rows IH]; [reflexivity|]. cbn [map List.filter].
  destruct (has_id id r); cbn [act_is_pending negb].
  - rewrite andb_false_r. exact IH.
  - rewrite andb_true_r. destruct (act_is_pending r); [f_equal|]; exact IH.
Qed.

Lemma update_activity_absent id b data rows :
  List.filter (has_id id) rows = [] -> update_activity b data id rows = rows.
Proof.
  unfold update_activity. induction rows as [|r rows IH]; [reflexivity|].
  cbn [map List.filter]. destruct (has_id id r); [discriminate|].
  intros H. f_equal. exact (IH H).
Qed.


(** X17: after [UpdateActivity] with a record that is not pending and
    encodes, [GetPendingActivities] decodes exactly the rows that were
    pending before and are not of the id, each once, in the order in
    which the query yields them. *)
Theorem UpdateActivity_GetPendingActivities (order : row_order activity_row)
    (id : ActivityID) (act : ActivityRecord) (db : DB) :
  IsPending act = false ->
  is_Some (marshalActivity act) ->
  exists rows,
    rows ≡ₚ List.filter (fun r => act_is_pending r && negb (has_id id r))
                         (activity db) /\
    Pending_ order (Upd_ id act db).2 = decode_ (map act_data rows) [].
Proof.
  intros Hp [j Hm].
  exists (arrange order
            (List.filter (fun r => act_is_pending r && negb (has_id id r))
                         (activity db))).
  split; [apply arrange_perm|]. unfold GetPendingActivities.
  rewrite <- (filter_pending_update id j (activity db)).
  unfold UpdateActivity.
  destruct (List.filter (has_id id) (activity db)) as [|r0 l] eqn:Hf.
  - cbn [snd]. rewrite (update_activity_absent id false j _ Hf). reflexivity.
  - rewrite Hm, Hp. reflexivity.
Qed.

End ActivityReadFacts.

Section RecordReadFacts.

Import Common Postgres.

Variable MillisToTime : Z -> Z.
Context {ActivityRecord ActivityParams ActivityResult : Type}.
Variable NewActivityRecord :
  string -> ActivityID -> string -> ActivityParams -> ActivityResult ->
  string -> string -> string -> ActivityRecord.
Variable marshalActivity : ActivityRecord -> option string.
Variable unmarshalActivity : string -> option ActivityRecord.

Abbreviation Rec' :=
  (Record_ MillisToTime ActivityRecord ActivityParams ActivityResult
           NewActivityRecord marshalActivity).
Abbreviation Get' := (GetActivity ActivityRecord unmarshalActivity).
Abbreviation Pending' := (GetPendingActivities ActivityRecord unmarshalActivity).
Abbreviation AllRecords' :=
  (GetAllRecords MillisToTime ActivityRecord unmarshalActivity).

Lemma decode_activities_app d1 : forall d2 acc,
  decode_activities ActivityRecord unmarshalActivity (d1 ++ d2) acc
  = match decode_activities ActivityRecord unmarshalActivity d1 acc with
    | inr l => decode_activities ActivityRecord unmarshalActivity d2 l
    | inl e => inl e
    end.
Proof.
  induction d1 as [|d d1 IH]; intros d2 acc; [reflexivity|].
  cbn [app decode_activities]. destruct (unmarshalActivity d); [apply IH|reflexivity].
Qed.

Lemma decode_activities_mapM data : forall acc,
  decode_activities ActivityRecord unmarshalActivity data acc
  = match mapM unmarshalActivity data with
    | Some l => inr (acc ++ l)
    | None => inl ErrUnmarshal
    end.
Proof.
  induction data as [|d data IH]; intros acc.
  - cbn. rewrite app_nil_r. reflexivity.
  - cbn [decode_activities]. change (mapM unmarshalActivity (d :: data))
      with (y ← unmarshalActivity d; k ← mapM unmarshalActivity data;
            mret (y :: k)).
    destruct (unmarshalActivity d) as [y|]; [|reflexivity]. rewrite IH. cbn.
    destruct (mapM unmarshalActivity data); [|reflexivity]. cbn.
    rewrite <- app_assoc. reflexivity.
Qed.

(** Decoding the rows in another order gives the activities in another
    order. *)
Lemma decode_activities_Permutation data data' activities :
  data ≡ₚ data' ->
  decode_activities ActivityRecord unmarshalActivity data [] = inr activities ->
  exists activities',
    decode_activities ActivityRecord unmarshalActivity data' [] = inr activities' /\
    activities' ≡ₚ activities.
Proof.
  intros Hperm. rewrite !decode_activities_mapM.
  destruct (mapM unmarshalActivity data) as [l|] eqn:Hl; [|discriminate].
  intros Heq. inversion Heq; subst activities.
  destruct (mapM_Permutation_Some _ _ _ _ Hperm Hl) as (l' & Hl' & Hll').
  rewrite Hl'. exists l'. split; [reflexivity|exact Hll'].
Qed.

(** X18: when the new record encodes (decoding being the inverse of
    encoding on it), after [Record] of an id that the ledger does not
    have, [GetActivity] of the id answers the new record.  After [Record]
    of an id that the ledger has already, the ledger has the old rows of
    the id and the new one, and [GetActivity] answers with the decoding
    of one of them: an old row or the new record, as the query yields one
    or the other first. *)
Theorem Record_GetActivity (order : row_order activity_row) (action : string)
    (id : ActivityID) (destination : string) (params : ActivityParams)
    (result : ActivityResult) (estatus mstatus : string) (timepoint : Z)
    (j : string) (db : DB) :
  marshalActivity (NewActivityRecord action id destination params result estatus
                     mstatus (FormatUint timepoint)) = Some j ->
  unmarshalActivity j
    = Some (NewActivityRecord action id destination params result estatus
              mstatus (FormatUint timepoint)) ->
  (~ stored id db ->
   Get' order id
     (Rec' action id destination params result estatus mstatus timepoint db).2
   = inr (NewActivityRecord action id destination params result estatus
            mstatus (FormatUint timepoint))) /\
  (stored id db ->
   Get' order id
     (Rec' action id destination params result estatus mstatus timepoint db).2
   = inr (NewActivityRecord action id destination params result estatus
            mstatus (FormatUint timepoint)) \/
   exists r, r ∈ activity db /\ has_id id r = true /\
     Get' order id
       (Rec' action id destination params result estatus mstatus timepoint db).2
     = match unmarshalActivity (act_data r) with
       | Some activityRecord => inr activityRecord
       | None => inl ErrUnmarshal
       end).
Proof.
  intros Hm Hrt. unfold Record_. rewrite Hm. cbn [snd].
  match goal with
  | |- context [Get' order id ?d] =>
      destruct (GetActivity_some_row unmarshalActivity order id d)
        as (r & Hr & Hget)
  end.
  { cbn [activity]. rewrite List.filter_app. cbn [List.filter].
    rewrite has_id_refl. intros Hnil. apply app_eq_nil in Hnil as [_ Hnil].
    discriminate Hnil. }
  cbn [activity] in Hr. rewrite List.filter_app in Hr.
  cbn [List.filter] in Hr. rewrite has_id_refl in Hr.
  rewrite Hget. clear Hget.
  apply elem_of_app in Hr as [Hold|Hnew].
  - apply list_elem_of_In, filter_In in Hold as [Hin Hid].
    apply list_elem_of_In in Hin. split.
    + intros Hno. exfalso. apply Hno. exists r. split; assumption.
    + intros _. right. exists r. repeat split; assumption.
  - apply list_elem_of_singleton in Hnew. subst r. cbn [act_data].
    rewrite Hrt. split; [reflexivity|]. intros _. left. reflexivity.
Qed.

(** X19: when the pending activities decode and the new record encodes
    (decoding being the inverse of encoding on it), after [Record] the
    pending activities are those of before and the new record, in the
    order in which the query yields them. *)
Theorem Record_GetPendingActivities (before after : row_order activity_row)
    (action : string) (id : ActivityID) (destination : string)
    (params : ActivityParams) (result : ActivityResult)
    (estatus mstatus : string) (timepoint : Z) (j : string)
    (pendings : list ActivityRecord) (db : DB) :
  marshalActivity (NewActivityRecord action id destination params result estatus
                     mstatus (FormatUint timepoint)) = Some j ->
  unmarshalActivity j
    = Some (NewActivityRecord action id destination params result estatus
              mstatus (FormatUint timepoint)) ->
  Pending' before db = inr pendings ->
  exists pendings',
    Pending' after
      (Rec' action id destination params result estatus mstatus timepoint db).2
    = inr pendings' /\
    pendings'
    ≡ₚ pendings
        ++ [NewActivityRecord action id destination params result estatus
              mstatus (FormatUint timepoint)].
Proof.
  intros Hm Hrt Hpend. unfold Record_. rewrite Hm. cbn [snd].
  unfold GetPendingActivities in *. cbn [activity].
  rewrite List.filter_app. cbn [List.filter act_is_pending].
  apply (decode_activities_Permutation
           (map act_data
              (arrange before (List.filter act_is_pending (activity db)))
            ++ [j])).
  - rewrite (arrange_perm after), (arrange_perm before), List.map_app.
    reflexivity.
  - rewrite decode_activities_app, Hpend. cbn [decode_activities].
    rewrite Hrt. reflexivity.
Qed.

(** X20: a window whose end lies before its start holds no activity:
    [GetAllRecords] answers the empty list and nil. *)
Theorem GetAllRecords_inverted_window (order : row_order activity_row)
    (fromTime toTime : Z) (db : DB) :
  MillisToTime toTime < MillisToTime fromTime ->
  AllRecords' order fromTime toTime db = inr [].
Proof.
  intros Hlt. unfold GetAllRecords.
  rewrite filter_nil_forall; [rewrite arrange_nil; reflexivity|].
  intros r _. destruct (Z.leb_spec (MillisToTime fromTime) (act_created r));
    destruct (Z.leb_spec (act_created r) (MillisToTime toTime)); try reflexivity.
  lia.
Qed.

End RecordReadFacts.

Section HasPendingDepositFacts.

Import Common Postgres.

Context {ActivityRecord : Type}.
Variable json_text : string -> string -> option string.
Variable ActionDeposit : string.
Variable zeroActivity : ActivityRecord.
Variable unmarshalActivityInto : string -> ActivityRecord -> option ActivityRecord.
Variable Asset : ActivityRecord -> Z.

Abbreviation HasDeposit_ :=
  (HasPendingDeposit ActivityRecord json_text ActionDeposit zeroActivity
     unmarshalActivityInto Asset).
Abbreviation deposit_to := (pending_deposit_to json_text ActionDeposit).

Lemma has_asset_true token data : forall pendingActivity,
  (has_asset ActivityRecord unmarshalActivityInto Asset token data
     pendingActivity).1 = true ->
  data <> [] /\
  (has_asset ActivityRecord unmarshalActivityInto Asset token data
     pendingActivity).2 = None.
Proof.
  induction data as [|d data IH]; intros pa; cbn [has_asset]; [discriminate|].
  destruct (unmarshalActivityInto d pa) as [pa'|]; [|discriminate].
  destruct (Asset pa' =? token); [intros _; split; [discriminate|reflexivity]|].
  intros H. destruct (IH pa' H) as [_ He]. split; [discriminate|exact He].
Qed.

(** X21: [HasPendingDeposit] answers true only without an error and
    only when the ledger has a pending row whose action is the deposit
    action and whose destination is the exchange; when the ledger has no
    such row it answers false and nil, whatever the other rows hold. *)
Theorem HasPendingDeposit_sound (order : row_order activity_row) (token : Z)
    (exchange : string) (db : DB) :
  ((HasDeposit_ order token exchange db).1 = true ->
   (HasDeposit_ order token exchange db).2 = None /\
   exists r, r ∈ activity db /\ act_is_pending r = true /\
             json_text (act_data r) "Action" = Some ActionDeposit /\
             json_text (act_data r) "Destination" = Some exchange) /\
  ((forall r, r ∈ activity db -> deposit_to exchange r = false) ->
   HasDeposit_ order token exchange db = (false, None)).
Proof.
  unfold HasPendingDeposit. split.
  - intros H. apply has_asset_true in H as [Hne He]. split; [exact He|].
    destruct (arrange order (List.filter (deposit_to exchange) (activity db)))
      as [|r l] eqn:Hf; [contradiction|].
    assert (Hin : In r (List.filter (deposit_to exchange) (activity db))).
    { apply list_elem_of_In, (arrange_elem_of order). rewrite Hf. left. }
    apply filter_In in Hin as [Hin Hr]. unfold pending_deposit_to in Hr.
    rewrite !andb_true_iff, !bool_decide_eq_true in Hr.
    destruct Hr as [[Hp Ha] Hd]. exists r.
    split; [apply list_elem_of_In; exact Hin|]. auto.
  - intros Hno. rewrite filter_nil_forall; [rewrite arrange_nil; reflexivity|].
    intros r Hr. apply Hno. apply list_elem_of_In. exact Hr.
Qed.

End HasPendingDepositFacts.

(** Storing a first price at time 10 and asking at time 15. *)
Lemma storeFetchData_read_back_witness :
  Postgres.currentVersion Postgres.millis Postgres.priceDataType 15
    (Postgres.store Postgres.priceDataType "p1" 10 Postgres.db0) = inr 1 /\
  Postgres.getData (Postgres.fetchDataType * string) Postgres.data_untext
    Postgres.priceDataType 1
    (Postgres.store Postgres.priceDataType "p1" 10 Postgres.db0)
  = inr (Postgres.priceDataType, "p1"%string).
Proof.
  destruct (storeFetchData_read_back Postgres.millis Postgres.data_text
              Postgres.data_untext fst (Postgres.priceDataType, "p1"%string)
              "p1"%string 10 15 Postgres.db0)
    as (db' & Hs & Hv & Hg).
  - constructor.
  - reflexivity.
  - reflexivity.
  - intros r Hr. inversion Hr.
  - unfold Postgres.millis. lia.
  - unfold Postgres.store. rewrite Hs. split; [exact Hv|exact Hg].
Defined.



(** After the settling of the first of two pending deposits the second
    one is pending. *)
Lemma UpdateActivity_GetPendingActivities_witness :
  exists rows,
    rows ≡ₚ [Postgres.ActivityRow 2 600 "dep-2" 500 true
               "Pdeposit:dep-2:binance:submitted"] /\
    Postgres.GetPendingActivities (string * bool) Postgres.activity_unjson
      (Postgres.reverse_order Postgres.activity_row)
      (Postgres.UpdateActivity (string * bool) Postgres.activity_json snd
         Postgres.dep1 ("settled"%string, false) Postgres.two_pending).2
    = Postgres.decode_activities (string * bool) Postgres.activity_unjson
        (map Postgres.act_data rows) [] /\
    Postgres.GetPendingActivities (string * bool) Postgres.activity_unjson
      (Postgres.reverse_order Postgres.activity_row)
      (Postgres.UpdateActivity (string * bool) Postgres.activity_json snd
         Postgres.dep1 ("settled"%string, false) Postgres.two_pending).2
    = inr [("deposit:dep-2:binance:submitted"%string, true)].
Proof.
  destruct (UpdateActivity_GetPendingActivities Postgres.activity_json
              Postgres.activity_unjson snd
              (Postgres.reverse_order Postgres.activity_row)
              Postgres.dep1 ("settled"%string, false)
              Postgres.two_pending eq_refl (ex_intro _ _ eq_refl))
    as (rows & Hperm & Heq).
  exists rows. split; [exact Hperm|]. split; [exact Heq|].
  vm_compute. reflexivity.
Defined.

Lemma settled_deposit_stored :
  Postgres.stored Postgres.dep1
    (Postgres.UpdateActivity (string * bool) Postgres.activity_json snd
       Postgres.dep1 ("settled"%string, false) Postgres.one_deposit_json).2.
Proof.
  exists (Postgres.ActivityRow 1 500 "dep-1" 500 false "Ssettled").
  split; [vm_compute; left|reflexivity].
Qed.

(** Recording a deposit on the fresh ledger; and recording it again
    after its settling: the query that yields the rows in table order
    answers the settled record, the one that yields them in reverse the
    new one. *)
Lemma Record_GetActivity_witness :
  Postgres.GetActivity (string * bool) Postgres.activity_unjson
    (Postgres.reverse_order Postgres.activity_row) Postgres.dep1
    Postgres.one_deposit_json
  = inr ("deposit:dep-1:binance:submitted"%string, true) /\
  (Postgres.GetActivity (string * bool) Postgres.activity_unjson
     (Postgres.reverse_order Postgres.activity_row) Postgres.dep1
     Postgres.settled_and_recorded
   = inr ("deposit:dep-1:binance:submitted"%string, true) \/
   exists r,
     r ∈ Postgres.activity
           (Postgres.UpdateActivity (string * bool) Postgres.activity_json snd
              Postgres.dep1 ("settled"%string, false)
              Postgres.one_deposit_json).2 /\
     Postgres.has_id Postgres.dep1 r = true /\
     Postgres.GetActivity (string * bool) Postgres.activity_unjson
       (Postgres.reverse_order Postgres.activity_row) Postgres.dep1
       Postgres.settled_and_recorded
     = match Postgres.activity_unjson (Postgres.act_data r) with
       | Some activityRecord => inr activityRecord
       | None => inl Postgres.ErrUnmarshal
       end) /\
  Postgres.GetActivity (string * bool) Postgres.activity_unjson
    (Postgres.reverse_order Postgres.activity_row) Postgres.dep1
    Postgres.settled_and_recorded
  = inr ("deposit:dep-1:binance:submitted"%string, true) /\
  Postgres.GetActivity (string * bool) Postgres.activity_unjson
    (Postgres.table_order Postgres.activity_row) Postgres.dep1
    Postgres.settled_and_recorded
  = inr ("settled"%string, false).
Proof.
  split; [|split; [|split]].
  - apply (proj1 (Record_GetActivity Postgres.millis Postgres.activity_record
                    Postgres.activity_json Postgres.activity_unjson
                    (Postgres.reverse_order Postgres.activity_row)
                    "deposit" Postgres.dep1 "binance" tt tt "" "submitted" 500
                    "Pdeposit:dep-1:binance:submitted" Postgres.db0
                    eq_refl eq_refl)).
    apply db0_not_stored.
  - exact (proj2 (Record_GetActivity Postgres.millis Postgres.activity_record
                    Postgres.activity_json Postgres.activity_unjson
                    (Postgres.reverse_order Postgres.activity_row)
                    "deposit" Postgres.dep1 "binance" tt tt "" "submitted" 500
                    "Pdeposit:dep-1:binance:submitted"
                    (Postgres.UpdateActivity (string * bool)
                       Postgres.activity_json snd Postgres.dep1
                       ("settled"%string, false) Postgres.one_deposit_json).2
                    eq_refl eq_refl) settled_deposit_stored).
  - vm_compute. reflexivity.
  - vm_compute. reflexivity.
Defined.

(** The pending activities after a [Record] of a second deposit, the
    query yielding the later row first. *)
Lemma Record_GetPendingActivities_witness :
  exists pendings',
    Postgres.GetPendingActivities (string * bool) Postgres.activity_unjson
      (Postgres.reverse_order Postgres.activity_row) Postgres.two_pending
    = inr pendings' /\
    pendings' ≡ₚ [("deposit:dep-1:binance:submitted"%string, true);
                   ("deposit:dep-2:binance:submitted"%string, true)] /\
    pendings' = [("deposit:dep-2:binance:submitted"%string, true);
                 ("deposit:dep-1:binance:submitted"%string, true)].
Proof.
  destruct (Record_GetPendingActivities Postgres.millis Postgres.activity_record
              Postgres.activity_json Postgres.activity_unjson
              (Postgres.table_order Postgres.activity_row)
              (Postgres.reverse_order Postgres.activity_row)
              "deposit" Postgres.dep2 "binance" tt tt "" "submitted" 500
              "Pdeposit:dep-2:binance:submitted"
              [("deposit:dep-1:binance:submitted"%string, true)]
              Postgres.one_deposit_json eq_refl eq_refl eq_refl)
    as (pendings' & Heq & Hperm).
  exists pendings'. split; [exact Heq|]. split; [exact Hperm|].
  vm_compute in Heq. inversion Heq. reflexivity.
Defined.

(** The window from 600 back to 400 on the ledger with one deposit. *)
Lemma GetAllRecords_inverted_window_witness :
  Postgres.GetAllRecords Postgres.millis (string * bool) Postgres.activity_unjson
    (Postgres.reverse_order Postgres.activity_row)
    600 400 Postgres.one_deposit_json = inr [].
Proof.
  apply (GetAllRecords_inverted_window Postgres.millis Postgres.activity_unjson
           (Postgres.reverse_order Postgres.activity_row)
           600 400 Postgres.one_deposit_json).
  unfold Postgres.millis. lia.
Defined.

(** A pending deposit to binance of the asset, and the fresh ledger. *)
Lemma HasPendingDeposit_sound_witness :
  (exists r, r ∈ Postgres.activity Postgres.one_deposit_json /\
             Postgres.act_is_pending r = true) /\
  Postgres.HasPendingDeposit (string * bool) Postgres.json_text_deposit "deposit"
    (EmptyString, false) Postgres.unjson_into Postgres.asset_of
    (Postgres.reverse_order Postgres.activity_row)
    31 "binance" Postgres.db0 = (false, None).
Proof.
  split.
  - destruct (proj1 (HasPendingDeposit_sound Postgres.json_text_deposit "deposit"
                       (EmptyString, false) Postgres.unjson_into Postgres.asset_of
                       (Postgres.reverse_order Postgres.activity_row)
                       31 "binance" Postgres.one_deposit_json))
      as (_ & r & Hr & Hp & _).
    + vm_compute. reflexivity.
    + exists r. split; assumption.
  - apply (proj2 (HasPendingDeposit_sound Postgres.json_text_deposit "deposit"
                    (EmptyString, false) Postgres.unjson_into Postgres.asset_of
                    (Postgres.reverse_order Postgres.activity_row)
                    31 "binance" Postgres.db0)).
    intros r Hr. inversion Hr.
Defined.

(** ** Bolt storage: the scan of a trade window *)

Lemma string_leb_trans a : forall b c,
  String.leb a b = true -> String.leb b c = true -> String.leb a c = true.
Proof.
  unfold String.leb.
  induction a as [|x a IH]; intros [|y b] [|z c]; cbn [String.compare];
    try reflexivity; try discriminate.
  unfold Ascii.compare.
  destruct (N.compare_spec (N_of_ascii x) (N_of_ascii y)) as [Hxy|Hxy|Hxy];
    destruct (N.compare_spec (N_of_ascii y) (N_of_ascii z)) as [Hyz|Hyz|Hyz];
    destruct (N.compare_spec (N_of_ascii x) (N_of_ascii z)) as [Hxz|Hxz|Hxz];
    try reflexivity; try discriminate; try lia.
  apply IH.
Qed.

Lemma bytes_le_trans a b c :
  Common.bytes_le a b = true -> Common.bytes_le b c = true ->
  Common.bytes_le a c = true.
Proof. rewrite !bytes_le_leb. apply string_leb_trans. Qed.

Section WindowFacts.

Import Common Bolt.

Context {TradeHistory : Type}.
Variable unmarshalTrade : string -> option TradeHistory.
Variable BytesToUint64 : string -> Z.

Lemma scan_pair_sorted max kvs : forall acc,
  StronglySorted key_le kvs ->
  scan_pair TradeHistory unmarshalTrade max kvs acc =
  match decode_trades unmarshalTrade
          (map snd (List.filter (fun kv => bytes_le kv.1 max) kvs)) with
  | Some l => inr (acc ++ l)
  | None => inl ErrJSON
  end.
Proof.
  induction kvs as [|[k v] kvs IH]; intros acc Hs.
  - cbn. rewrite app_nil_r. reflexivity.
  - inversion Hs as [|? ? Hs' Hall]; subst. cbn [scan_pair List.filter fst].
    destruct (bytes_le k max) eqn:Hk.
    + cbn [map snd decode_trades]. destruct (unmarshalTrade v) as [t|]; [|reflexivity].
      rewrite (IH _ Hs').
      destruct (decode_trades unmarshalTrade _) as [l|]; [|reflexivity].
      rewrite <- app_assoc. reflexivity.
    + rewrite filter_nil_forall; [cbn; rewrite app_nil_r; reflexivity|].
      intros [k' v'] Hin. cbn [fst].
      destruct (bytes_le k' max) eqn:Hk'; [|reflexivity].
      rewrite Forall_forall in Hall.
      specialize (Hall _ ltac:(apply list_elem_of_In; exact Hin)).
      unfold key_le in Hall. cbn in Hall.
      rewrite (bytes_le_trans _ _ _ Hall Hk') in Hk. discriminate.
Qed.

Lemma scan_window_sorted min max kvs :
  StronglySorted key_le kvs ->
  scan_pair TradeHistory unmarshalTrade max (Seek min kvs) [] =
  match decode_trades unmarshalTrade
          (map snd (List.filter (in_window min max) kvs)) with
  | Some l => inr l
  | None => inl ErrJSON
  end.
Proof.
  induction kvs as [|[k v] kvs IH]; intros Hs; [reflexivity|].
  inversion Hs as [|? ? Hs' Hall]; subst. cbn [Seek].
  destruct (bytes_le min k) eqn:Hk.
  - rewrite (scan_pair_sorted max _ [] Hs). cbn [app].
    assert (Heq : List.filter (fun kv => bytes_le kv.1 max) ((k, v) :: kvs)
                  = List.filter (in_window min max) ((k, v) :: kvs)).
    { apply filter_ext_in. intros [k' v'] Hin. unfold in_window. cbn [fst].
      assert (Hmin : bytes_le min k' = true); [|rewrite Hmin; reflexivity].
      destruct Hin as [Heq|Hin]; [inversion Heq; subst; exact Hk|].
      rewrite Forall_forall in Hall.
      specialize (Hall _ ltac:(apply list_elem_of_In; exact Hin)).
      exact (bytes_le_trans _ _ _ Hk Hall). }
    rewrite Heq. reflexivity.
  - rewrite (IH Hs'). cbn [List.filter]. unfold in_window at 2. cbn [fst].
    rewrite Hk. reflexivity.
Qed.

#[local] Instance key_le_trans : Transitive key_le.
Proof. intros a b c. unfold key_le. apply bytes_le_trans. Qed.

(** X22: for a pair bucket whose entries are in the order of their keys,
    [GetTradeHistory] within the maximum window answers for the pair the
    decoded values of exactly the entries whose key lies, byte-wise,
    between the decimal text of [fromTime] and that of [toTime], in key
    order; if one of these does not decode, it answers the error and an
    empty history. *)
Theorem GetTradeHistory_scans_window (fromTime toTime : Z) (pair : string)
    (kvs : list (string * string)) (db : DB) :
  sub64 toTime fromTime <= maxGetTradeHistory ->
  Sorted key_le kvs ->
  trade_history db = [(pair, SubBucket kvs)] ->
  (GetTradeHistory TradeHistory unmarshalTrade BytesToUint64 fromTime toTime db).1
  = match decode_trades unmarshalTrade
            (map snd (List.filter
                        (in_window (FormatUint fromTime) (FormatUint toTime)) kvs))
    with
    | Some l => (<[BytesToUint64 pair := l]> ∅, None)
    | None => (∅, Some ErrJSON)
    end.
Proof.
  intros Hw Hsorted Hth. unfold GetTradeHistory.
  assert (Hle : (maxGetTradeHistory <? sub64 toTime fromTime) = false)
    by (apply Z.ltb_ge; exact Hw).
  rewrite Hle. unfold View. cbn [fst]. rewrite Hth. cbn [scan_pairs].
  rewrite scan_window_sorted by (apply Sorted_StronglySorted; [apply _|exact Hsorted]).
  destruct (decode_trades unmarshalTrade _); reflexivity.
Qed.

End WindowFacts.

(** The three trades of the example bucket and the window from 1500 to
    3500. *)
Lemma GetTradeHistory_scans_window_witness :
  (Bolt.GetTradeHistory string Bolt.trade_text Bolt.pair_key 1500 3500 Bolt.trades).1
  = (<[1 := ["t2"; "t3"]%string]> ∅, None).
Proof.
  rewrite (GetTradeHistory_scans_window Bolt.trade_text Bolt.pair_key 1500 3500
             "p" [("1000a", "t1"); ("2000b", "t2"); ("3000c", "t3")]%string
             Bolt.trades).
  - vm_compute. reflexivity.
  - vm_compute. discriminate.
  - repeat constructor.
  - reflexivity.
Defined.

(** ** Bolt storage: storing trades *)

Lemma string_compare_refl a : String.compare a a = Eq.
Proof.
  induction a as [|x a IH]; [reflexivity|]. cbn [String.compare].
  unfold Ascii.compare. rewrite N.compare_refl. exact IH.
Qed.

Lemma str_lt_trans a : forall b c,
  Bolt.str_lt a b -> Bolt.str_lt b c -> Bolt.str_lt a c.
Proof.
  unfold Bolt.str_lt.
  induction a as [|x a IH]; intros [|y b] [|z c]; cbn [String.compare];
    try reflexivity; try discriminate.
  unfold Ascii.compare.
  destruct (N.compare_spec (N_of_ascii x) (N_of_ascii y)) as [Hxy|Hxy|Hxy];
    destruct (N.compare_spec (N_of_ascii y) (N_of_ascii z)) as [Hyz|Hyz|Hyz];
    destruct (N.compare_spec (N_of_ascii x) (N_of_ascii z)) as [Hxz|Hxz|Hxz];
    try reflexivity; try discriminate; try lia.
  apply IH.
Qed.

Lemma str_lt_gt a b : String.compare a b = Gt -> Bolt.str_lt b a.
Proof.
  unfold Bolt.str_lt. rewrite (String.compare_antisym b a). intros ->. reflexivity.
Qed.

Lemma str_lt_bytes_le a b : Bolt.str_lt a b -> Common.bytes_le a b = true.
Proof. unfold Bolt.str_lt, Common.bytes_le. intros ->. reflexivity. Qed.

Lemma put_sorted_keys {A} key (value : A) kvs k' :
  k' ∈ (Bolt.put_sorted key value kvs).*1 -> k' = key \/ k' ∈ kvs.*1.
Proof.
  induction kvs as [|[k v] kvs IH]; cbn [Bolt.put_sorted].
  - cbn [fmap list_fmap fst]. rewrite list_elem_of_singleton. tauto.
  - destruct (String.compare key k) eqn:Hc; cbn [fmap list_fmap fst];
      rewrite ?elem_of_cons; [tauto|tauto|].
    intros [?|H]; [tauto|]. destruct (IH H); tauto.
Qed.

Lemma put_sorted_ordered {A} key (value : A) kvs :
  Bolt.ordered_keys kvs.*1 -> Bolt.ordered_keys (Bolt.put_sorted key value kvs).*1.
Proof.
  unfold Bolt.ordered_keys.
  induction kvs as [|[k v] kvs IH]; intros Hs; cbn [Bolt.put_sorted].
  - repeat constructor.
  - cbn [fmap list_fmap fst] in Hs. inversion Hs as [|? ? Hs' Hall]; subst.
    destruct (String.compare key k) eqn:Hc; cbn [fmap list_fmap fst].
    + apply String.compare_eq_iff in Hc. subst k. constructor; assumption.
    + constructor; [exact Hs|]. constructor; [exact Hc|].
      eapply Forall_impl; [exact Hall|]. intros k' Hk'.
      eapply str_lt_trans; eassumption.
    + constructor; [apply IH; exact Hs'|].
      apply Forall_forall. intros k' Hk'.
      apply put_sorted_keys in Hk' as [->|Hk'].
      * apply str_lt_gt. exact Hc.
      * rewrite Forall_forall in Hall. apply Hall. exact Hk'.
Qed.

Lemma put_in_keys name key value entries :
  (Bolt.put_in name key value entries).*1 = entries.*1.
Proof.
  unfold Bolt.put_in. induction entries as [|[k e] entries IH]; [reflexivity|].
  cbn [map fmap list_fmap]. cbn [fmap list_fmap] in IH. rewrite IH. f_equal.
  destruct e as [v|kvs]; cbn; [reflexivity|]. destruct (String.eqb name k); reflexivity.
Qed.

Lemma put_in_ordered name key value entries :
  Bolt.ordered entries -> Bolt.ordered (Bolt.put_in name key value entries).
Proof.
  intros [Hk Hb]. split; [rewrite put_in_keys; exact Hk|].
  unfold Bolt.put_in. induction Hb as [|[k e] entries He Hb IH]; [constructor|].
  cbn [map]. constructor.
  - destruct e as [v|kvs]; cbn; [exact I|].
    destruct (String.eqb name k); cbn; [apply put_sorted_ordered|]; exact He.
  - apply IH. cbn [fmap list_fmap] in Hk. inversion Hk; assumption.
Qed.

Lemma get_sorted_None_put {A} name (e : A) entries k' e' :
  (k', e') ∈ Bolt.put_sorted name e entries ->
  (k', e') = (name, e) \/ (k', e') ∈ entries.
Proof.
  induction entries as [|[k v] entries IH]; cbn [Bolt.put_sorted].
  - rewrite list_elem_of_singleton. tauto.
  - destruct (String.compare name k); rewrite ?elem_of_cons; [tauto|tauto|].
    intros [?|H]; [tauto|]. destruct (IH H); tauto.
Qed.

Lemma CreateBucketIfNotExists_ordered name entries entries' :
  Bolt.ordered entries ->
  Bolt.CreateBucketIfNotExists name entries = inr entries' ->
  Bolt.ordered entries'.
Proof.
  intros [Hk Hb]. unfold Bolt.CreateBucketIfNotExists.
  destruct (String.length name =? 0)%nat; [discriminate|].
  destruct (Bolt.get_sorted name entries) as [[v|kvs]|];
    intros H; inversion H; subst; [split; assumption|]. split.
  - apply put_sorted_ordered. exact Hk.
  - apply Forall_forall. intros [k' e'] Hin.
    apply get_sorted_None_put in Hin as [Heq|Hin].
    + inversion Heq; subst. cbn. constructor.
    + rewrite Forall_forall in Hb. apply (Hb (k', e')). exact Hin.
Qed.

Section TradeStoreFacts.

Import Common Bolt.

Context {TradeHistory : Type}.
Variable marshalTrade : TradeHistory -> option string.
Variable unmarshalTrade : string -> option TradeHistory.
Variable Timestamp : TradeHistory -> Z.
Variable ID : TradeHistory -> string.
Variable Uint64ToBytes : Z -> string.
Variable BytesToUint64 : string -> Z.

Abbreviation StoreTrades :=
  (StoreTradeHistory TradeHistory marshalTrade Timestamp ID Uint64ToBytes).
Abbreviation key_of := (trade_key TradeHistory Timestamp ID).

Lemma store_pair_history_ordered name pairHistory : forall entries entries',
  ordered entries ->
  store_pair_history TradeHistory marshalTrade Timestamp ID name pairHistory entries
    = inr entries' ->
  ordered entries'.
Proof.
  induction pairHistory as [|h rest IH]; intros entries entries' Ho;
    cbn [store_pair_history].
  - intros H; inversion H; subst. exact Ho.
  - destruct (marshalTrade h) as [j|]; [|discriminate].
    destruct (check_put _ j); [discriminate|]. apply IH, put_in_ordered, Ho.
Qed.

Lemma store_pairs_ordered data : forall entries entries',
  ordered entries ->
  store_pairs TradeHistory marshalTrade Timestamp ID Uint64ToBytes data entries
    = inr entries' ->
  ordered entries'.
Proof.
  induction data as [|[p hs] data IH]; intros entries entries' Ho; cbn [store_pairs].
  - intros H; inversion H; subst. exact Ho.
  - destruct (CreateBucketIfNotExists _ entries) as [e|entries1] eqn:Hc;
      [discriminate|].
    destruct (store_pair_history _ _ _ _ _ hs entries1) as [e|entries2] eqn:Hp;
      [discriminate|].
    apply IH. eapply store_pair_history_ordered; [|exact Hp].
    eapply CreateBucketIfNotExists_ordered; eassumption.
Qed.

(** X23: [StoreTradeHistory] keeps the [trade_history] bucket and every
    pair bucket in it in the strict order of their keys; it writes no
    other bucket; and when it returns an error the database is as it was
    before the call. *)
Theorem StoreTradeHistory_keeps_order (data : gmap Z (list TradeHistory))
    (db : DB) :
  ordered (trade_history db) ->
  ordered (trade_history (StoreTrades data db).2) /\
  intermediate_tx (StoreTrades data db).2 = intermediate_tx db /\
  pending_intermediate_tx (StoreTrades data db).2 = pending_intermediate_tx db /\
  ((StoreTrades data db).1 <> None -> (StoreTrades data db).2 = db).
Proof.
  intros Ho. unfold StoreTradeHistory.
  destruct (store_pairs _ _ _ _ _ (map_to_list data) (trade_history db))
    as [e|entries] eqn:Hs; cbn [fst snd trade_history intermediate_tx
                                 pending_intermediate_tx].
  - split; [exact Ho|]. split; [reflexivity|]. split; reflexivity.
  - split; [eapply store_pairs_ordered; eassumption|].
    split; [reflexivity|]. split; [reflexivity|congruence].
Qed.

(** X24: storing one trade of one pair on the fresh database and reading
    a window within the maximum back: the history has the pair, with the
    trade when its key lies between the decimal texts of the two ends and
    with no trade otherwise (the name of the pair bucket not being empty,
    the trade encoding within the limits of [Put], and decoding being the
    inverse of encoding on it). *)
Theorem StoreTradeHistory_GetTradeHistory (pairID : Z) (history : TradeHistory)
    (j : string) (fromTime toTime : Z) :
  Uint64ToBytes pairID <> EmptyString ->
  marshalTrade history = Some j ->
  check_put (key_of history) j = None ->
  unmarshalTrade j = Some history ->
  sub64 toTime fromTime <= maxGetTradeHistory ->
  exists db',
    StoreTrades {[pairID := [history]]} db0 = (None, db') /\
    (GetTradeHistory TradeHistory unmarshalTrade BytesToUint64 fromTime toTime db').1
    = (<[BytesToUint64 (Uint64ToBytes pairID) :=
           if in_window (FormatUint fromTime) (FormatUint toTime) (key_of history, j)
           then [history] else []]> ∅, None).
Proof.
  intros Hname Hm Hput Hrt Hw. unfold StoreTradeHistory.
  rewrite map_to_list_singleton. cbn [store_pairs trade_history db0].
  unfold CreateBucketIfNotExists.
  destruct (String.length (Uint64ToBytes pairID) =? 0)%nat eqn:Hlen.
  { apply Nat.eqb_eq in Hlen. destruct (Uint64ToBytes pairID); [congruence|discriminate]. }
  cbn [get_sorted put_sorted store_pair_history]. rewrite Hm, Hput.
  cbn [put_in map snd fst]. rewrite String.eqb_refl. cbn [put_sorted].
  eexists. split; [reflexivity|].
  unfold GetTradeHistory.
  assert (Hle : (maxGetTradeHistory <? sub64 toTime fromTime) = false)
    by (apply Z.ltb_ge; exact Hw).
  rewrite Hle. unfold View. cbn [fst trade_history scan_pairs Seek].
  unfold in_window. cbn [fst].
  destruct (bytes_le (FormatUint fromTime) (key_of history)); cbn [andb scan_pair].
  - destruct (bytes_le (key_of history) (FormatUint toTime)); [|reflexivity].
    rewrite Hrt. reflexivity.
  - reflexivity.
Qed.

End TradeStoreFacts.

(** Storing the trade [t2] of pair 1 on the fresh database. *)
Lemma StoreTradeHistory_keeps_order_witness :
  Bolt.ordered
    (Bolt.trade_history
       (Bolt.StoreTradeHistory string Bolt.trade_text Bolt.trade_time Bolt.trade_id
          Common.FormatUint {[1 := ["t2"%string]]} Bolt.db0).2).
Proof.
  apply (StoreTradeHistory_keeps_order Bolt.trade_text Bolt.trade_time Bolt.trade_id
           Common.FormatUint {[1 := ["t2"%string]]} Bolt.db0).
  split; constructor.
Defined.

(** The same trade read back in the window from 1500 to 2500. *)
Lemma StoreTradeHistory_GetTradeHistory_witness :
  exists db',
    Bolt.StoreTradeHistory string Bolt.trade_text Bolt.trade_time Bolt.trade_id
      Common.FormatUint {[1 := ["t2"%string]]} Bolt.db0 = (None, db') /\
    (Bolt.GetTradeHistory string Bolt.trade_text Bolt.pair_key 1500 2500 db').1
    = (<[1 := ["t2"%string]]> ∅, None).
Proof.
  destruct (StoreTradeHistory_GetTradeHistory Bolt.trade_text Bolt.trade_text
              Bolt.trade_time Bolt.trade_id Common.FormatUint Bolt.pair_key
              1 "t2"%string "t2"%string 1500 2500)
    as (db' & Hs & Hg).
  - vm_compute. discriminate.
  - reflexivity.
  - vm_compute. reflexivity.
  - reflexivity.
  - vm_compute. discriminate.
  - exists db'. split; [exact Hs|]. rewrite Hg. vm_compute. reflexivity.
Defined.

(** Reading a promoted deposit and a deposit that was never promoted. *)
Lemma GetIntermedatorTx_exact_lookup_witness :
  (Bolt.GetIntermedatorTx string Bolt.unmarshal_text Bolt.to_bytes_text Bolt.dep2
     (Bolt.run string Bolt.marshal_text Bolt.marshal_id_text Bolt.to_bytes_text
        Bolt.two_deposits Bolt.db0)).1 = inl Bolt.ErrNoSecondTx.
Proof.
  apply (proj1 (proj2 (GetIntermedatorTx_exact_lookup Bolt.unmarshal_text
                         Bolt.to_bytes_text Bolt.dep2
                         (Bolt.run string Bolt.marshal_text Bolt.marshal_id_text
                            Bolt.to_bytes_text Bolt.two_deposits Bolt.db0)))).
  - vm_compute. reflexivity.
  - discriminate.
Defined.

(** ** Postgres storage: rates in a window *)

Section RatesFacts.

Import Common Postgres.

Variable MillisToTime : Z -> Z.
Context {Data : Type}.
Variable marshalData : Data -> option string.
Variable unmarshalData : fetchDataType -> string -> option Data.
Variable getDataType : Data -> fetchDataType.

Abbreviation Rates_ := (GetRates MillisToTime Data unmarshalData).

Lemma decode_rates_app d1 : forall d2 acc,
  decode_rates Data unmarshalData (d1 ++ d2) acc
  = match decode_rates Data unmarshalData d1 acc with
    | inr l => decode_rates Data unmarshalData d2 l
    | inl e => inl e
    end.
Proof.
  induction d1 as [|d d1 IH]; intros d2 acc; [reflexivity|].
  cbn [app decode_rates]. destruct (unmarshalData rateDataType d);
    [apply IH|reflexivity].
Qed.

Lemma decode_rates_mapM data : forall acc,
  decode_rates Data unmarshalData data acc
  = match mapM (unmarshalData rateDataType) data with
    | Some l => inr (acc ++ l)
    | None => inl ErrUnmarshal
    end.
Proof.
  induction data as [|d data IH]; intros acc.
  - cbn. rewrite app_nil_r. reflexivity.
  - cbn [decode_rates]. change (mapM (unmarshalData rateDataType) (d :: data))
      with (y ← unmarshalData rateDataType d;
            k ← mapM (unmarshalData rateDataType) data; mret (y :: k)).
    destruct (unmarshalData rateDataType d) as [y|]; [|reflexivity].
    rewrite IH. cbn.
    destruct (mapM (unmarshalData rateDataType) data); [|reflexivity]. cbn.
    rewrite <- app_assoc. reflexivity.
Qed.

(** Decoding the rows in another order gives the rates in another order,
    or fails as well. *)
Lemma decode_rates_Permutation data data' :
  data ≡ₚ data' ->
  match decode_rates Data unmarshalData data [] with
  | inr rates =>
      exists rates',
        decode_rates Data unmarshalData data' [] = inr rates' /\
        rates' ≡ₚ rates
  | inl _ => decode_rates Data unmarshalData data' [] = inl ErrUnmarshal
  end.
Proof.
  intros Hperm. rewrite !decode_rates_mapM.
  destruct (mapM (unmarshalData rateDataType) data) as [l|] eqn:Hl.
  - destruct (mapM_Permutation_Some _ _ _ _ Hperm Hl) as (l' & Hl' & Hll').
    rewrite Hl'. exists l'. split; [reflexivity|exact Hll'].
  - rewrite (mapM_Permutation_None _ _ _ Hperm Hl). reflexivity.
Qed.

(** X25: when the rates of a window decode, storing data that encodes
    changes the rates of the window only if the data is a rate and its
    time lies in the window, both ends included: the rates are then
    those of before and the decoded data, in the order in which the
    query yields them (or the decoding error is returned); otherwise the
    rates of the window are those of before. *)
Theorem storeFetchData_GetRates (before after : row_order fetch_data_row)
    (data : Data) (j : string) (timepoint fromTime toTime : Z)
    (rates : list Data) (db : DB) :
  marshalData data = Some j ->
  Rates_ before fromTime toTime db = inr rates ->
  if bool_decide (getDataType data = rateDataType)
     && (MillisToTime fromTime <=? MillisToTime timepoint)
     && (MillisToTime timepoint <=? MillisToTime toTime)
  then match unmarshalData rateDataType j with
       | Some rate =>
           exists rates',
             Rates_ after fromTime toTime
               (storeFetchData MillisToTime Data marshalData getDataType
                  data timepoint db).2 = inr rates' /\
             rates' ≡ₚ rates ++ [rate]
       | None =>
           Rates_ after fromTime toTime
             (storeFetchData MillisToTime Data marshalData getDataType
                data timepoint db).2 = inl ErrUnmarshal
       end
  else exists rates',
         Rates_ after fromTime toTime
           (storeFetchData MillisToTime Data marshalData getDataType
              data timepoint db).2 = inr rates' /\
         rates' ≡ₚ rates.
Proof.
  intros Hm Hr. unfold storeFetchData. rewrite Hm. cbn [snd].
  unfold GetRates in *. cbn [fetch_data].
  rewrite List.filter_app. cbn [List.filter fd_type fd_created].
  destruct (bool_decide (getDataType data = rateDataType)
            && (MillisToTime fromTime <=? MillisToTime timepoint)
            && (MillisToTime timepoint <=? MillisToTime toTime)).
  - match goal with
    | |- context [arrange after (?F ++ [?row])] =>
        pose proof (decode_rates_Permutation
                      (map fd_data (arrange before F) ++ [j])
                      (map fd_data (arrange after (F ++ [row])))) as Hd
    end.
    rewrite decode_rates_app, Hr in Hd. cbn [decode_rates] in Hd.
    destruct (unmarshalData rateDataType j) as [rate|]; apply Hd.
    all: rewrite (arrange_perm after), (arrange_perm before), List.map_app;
      reflexivity.
  - rewrite app_nil_r.
    match goal with
    | |- context [arrange after ?F] =>
        pose proof (decode_rates_Permutation
                      (map fd_data (arrange before F))
                      (map fd_data (arrange after F))) as Hd
    end.
    rewrite Hr in Hd. apply Hd.
    rewrite (arrange_perm after), (arrange_perm before). reflexivity.
Qed.

End RatesFacts.

(** A rate for time 10 stored after a rate for time 20, in the window
    from 5 to 30: the query that yields the rates by their time answers
    the new rate first. *)
Lemma storeFetchData_GetRates_witness :
  exists rates',
    Postgres.GetRates Postgres.millis (Postgres.fetchDataType * string)
      Postgres.data_untext (Postgres.reverse_order Postgres.fetch_data_row)
      5 30 Postgres.two_rates = inr rates' /\
    rates' ≡ₚ [(Postgres.rateDataType, "r20"%string);
                (Postgres.rateDataType, "r10"%string)] /\
    rates' = [(Postgres.rateDataType, "r10"%string);
              (Postgres.rateDataType, "r20"%string)].
Proof.
  destruct (storeFetchData_GetRates Postgres.millis Postgres.data_text
              Postgres.data_untext fst
              (Postgres.table_order Postgres.fetch_data_row)
              (Postgres.reverse_order Postgres.fetch_data_row)
              (Postgres.rateDataType, "r10"%string)
              "r10"%string 10 5 30 [(Postgres.rateDataType, "r20"%string)]
              (Postgres.store Postgres.rateDataType "r20" 20 Postgres.db0)
              eq_refl eq_refl)
    as (rates' & Heq & Hperm).
  exists rates'. split; [exact Heq|]. split; [exact Hperm|].
  vm_compute in Heq. inversion Heq. reflexivity.
Defined.
